(** * hue_candle: a candle-flicker simulation driving Philips Hue lights

    Shallow embedding of [hue_candle.py] and the properties of its
    brightness generator [Flame.GetNextFlameBrightness], of the credential
    loader [GetBridgeIpAndUsername] and of the dispatch loop of [main].

    Python integers are unbounded, so every integer of the program is a [Z].
    The dictionary [flames] of [main] is a [gmap Z Flame]. *)

From Stdlib Require Import ZArith Ascii.
From stdpp Require Import base tactics option list strings gmap.

Local Open Scope Z_scope.

(** ** Module-level configuration constants *)

Definition SEND_TO_HUE : bool := true.
Definition IN_SYNC : bool := true.
Definition LIGHTS : list Z := [2; 4].
Definition MAX_BRIGHTNESS : Z := 220.
Definition MIN_BRIGHTNESS : Z := 100.

(** Class attributes of [Flame]. *)
Definition WIND_VARIABILITY : Z := 2.
Definition FLAME_AGILITY : Z := 20.
Definition WIND_BASELINE : Z := 5.

(** ** The random source

    [random.randint(lo, hi)] is the only effect of the simulation.  The
    source of randomness is an oracle: [e k lo hi] is the integer handed out
    by the [k]-th call made to the random source when that call is
    [randint(lo, hi)].  A computation that draws numbers threads the count of
    calls made so far. *)

Definition Entropy : Type := nat -> Z -> Z -> Z.

(** The contract of [random.randint]: the result [N] satisfies
    [lo <= N <= hi]. *)
Definition in_range (e : Entropy) : Prop :=
  forall (k : nat) (lo hi : Z), lo <= hi -> lo <= e k lo hi <= hi.

Definition Rand (A : Type) : Type := Entropy -> nat -> A * nat.

Definition ret {A : Type} (a : A) : Rand A := fun _ k => (a, k).

Definition bind {A B : Type} (m : Rand A) (f : A -> Rand B) : Rand B :=
  fun e k => let (a, k') := m e k in f a e k'.

Definition randint (lo hi : Z) : Rand Z := fun e k => (e k lo hi, S k).

Notation "'let!' x ':=' m 'in' f" := (bind m (fun x => f))
  (at level 10, x name, m at level 100, f at level 200).

(** ** The flame *)

Record Flame : Type := mkFlame {
  flame : Z;        (* raw brightness of the flame *)
  flameprime : Z;   (* filtered brightness, simulating inertia *)
  wind : Z          (* wind strength *)
}.

(** [Flame.__init__] *)
Definition Flame_init : Flame :=
  {| flame := MAX_BRIGHTNESS; flameprime := MAX_BRIGHTNESS; wind := WIND_BASELINE |}.

Definition set_flame (v : Z) (self : Flame) : Flame :=
  {| flame := v; flameprime := flameprime self; wind := wind self |}.
Definition set_flameprime (v : Z) (self : Flame) : Flame :=
  {| flame := flame self; flameprime := v; wind := wind self |}.
Definition set_wind (v : Z) (self : Flame) : Flame :=
  {| flame := flame self; flameprime := flameprime self; wind := v |}.

(** The five statements of [GetNextFlameBrightness], in program order. *)

(** [if random.randint(0, 1000) < self.WIND_VARIABILITY:
       self.wind = random.randint(0, 255)] *)
Definition gust (self : Flame) : Rand Flame :=
  let! r := randint 0 1000 in
  if r <? WIND_VARIABILITY
  then let! w := randint 0 255 in ret (set_wind w self)
  else ret self.

(** [if self.wind > self.WIND_BASELINE: self.wind -= 1] *)
Definition settle (self : Flame) : Flame :=
  if wind self >? WIND_BASELINE then set_wind (wind self - 1) self else self.

(** [if self.flame < MAX_BRIGHTNESS: self.flame += 1] *)
Definition rise (self : Flame) : Flame :=
  if flame self <? MAX_BRIGHTNESS then set_flame (flame self + 1) self else self.

(** [if random.randint(0, 255) < self.wind:
       self.flame = random.randint(MIN_BRIGHTNESS, MAX_BRIGHTNESS)] *)
Definition knock (self : Flame) : Rand Flame :=
  let! r := randint 0 255 in
  if r <? wind self
  then let! f := randint MIN_BRIGHTNESS MAX_BRIGHTNESS in ret (set_flame f self)
  else ret self.

(** [if self.flame > self.flameprime:
       self.flameprime = min(self.flameprime + self.FLAME_AGILITY, MAX_BRIGHTNESS)
     else:
       self.flameprime = max(self.flameprime - self.FLAME_AGILITY, MIN_BRIGHTNESS)] *)
Definition inertia (self : Flame) : Flame :=
  if flame self >? flameprime self
  then set_flameprime (Z.min (flameprime self + FLAME_AGILITY) MAX_BRIGHTNESS) self
  else set_flameprime (Z.max (flameprime self - FLAME_AGILITY) MIN_BRIGHTNESS) self.

(** The state of the flame when the inertial filter is about to run. *)
Definition before_inertia (self : Flame) : Rand Flame :=
  let! s1 := gust self in
  knock (rise (settle s1)).

(** [Flame.GetNextFlameBrightness]: returns the brightness and the mutated
    object. *)
Definition GetNextFlameBrightness (self : Flame) : Rand (Z * Flame) :=
  let! s4 := before_inertia self in
  let s5 := inertia s4 in
  ret (flameprime s5, s5).

(** One call, seen from outside: the returned value, the flame after the
    call, and the number of draws made so far. *)
Definition brightness_of (e : Entropy) (k : nat) (self : Flame) : Z :=
  fst (fst (GetNextFlameBrightness self e k)).
Definition flame_after (e : Entropy) (k : nat) (self : Flame) : Flame :=
  snd (fst (GetNextFlameBrightness self e k)).
Definition draws_after (e : Entropy) (k : nat) (self : Flame) : nat :=
  snd (GetNextFlameBrightness self e k).

(** [n] successive calls on the same object: the list of returned values,
    the final object and the final draw count. *)
Fixpoint ticks (n : nat) (self : Flame) : Rand (list Z * Flame) :=
  match n with
  | O => ret ([], self)
  | S n' =>
      let! r := GetNextFlameBrightness self in
      let! rest := ticks n' (snd r) in
      ret (fst r :: fst rest, snd rest)
  end.

(** States reachable from a freshly constructed flame by calls to
    [GetNextFlameBrightness], whatever the random source hands out within
    its contract. *)
Inductive reachable : Flame -> Prop :=
| reachable_init : reachable Flame_init
| reachable_call (e : Entropy) (k : nat) (self : Flame) :
    in_range e -> reachable self -> reachable (flame_after e k self).

(** The invariant of the simulation: the ranges the comments of [__init__]
    and the docstring of [GetNextFlameBrightness] announce. *)
Record flame_inv (self : Flame) : Prop := mk_flame_inv {
  inv_flame : MIN_BRIGHTNESS <= flame self <= MAX_BRIGHTNESS;
  inv_flameprime : MIN_BRIGHTNESS <= flameprime self <= MAX_BRIGHTNESS;
  inv_wind : 0 <= wind self <= 255
}.

(** *** Calls without a gust

    A call is calm when neither conditional assignment runs: the first draw
    (the gust roll) is not below [WIND_VARIABILITY], so no wind is drawn, and
    the next draw (the wind-threshold roll) is not below the settled wind,
    so no flame is drawn. *)
Definition calm_call (e : Entropy) (k : nat) (self : Flame) : Prop :=
  WIND_VARIABILITY <= e k 0 1000 /\ wind (settle self) <= e (S k) 0 255.

(** What a calm call does to the object. *)
Definition calm_step (self : Flame) : Flame := inertia (rise (settle self)).

(** [n] calm calls in a row, starting with the call that makes draw [k]. *)
Fixpoint calm_run (e : Entropy) (k : nat) (self : Flame) (n : nat) : Prop :=
  match n with
  | O => True
  | S n' =>
      calm_call e k self /\
      calm_run e (draws_after e k self) (flame_after e k self) n'
  end.

(** The values returned by [n] calm calls. *)
Fixpoint calm_outputs (n : nat) (self : Flame) : list Z :=
  match n with
  | O => []
  | S n' => flameprime (calm_step self) :: calm_outputs n' (calm_step self)
  end.

(** Two oracles used to exercise the statements below: one always hands out
    the lowest admissible value, the other the highest. *)
Definition lowest : Entropy := fun _ lo _ => lo.
Definition highest : Entropy := fun _ _ hi => hi.


(** A test double for scenario A: on the first call the gust roll fails, the
    wind-threshold roll passes and the flame drawn is [MIN_BRIGHTNESS]; every
    later draw is the highest admissible value, so that no later roll
    passes. *)
Definition scenario_A_stub : Entropy :=
  fun k lo hi =>
    match k with
    | 0%nat => 1000
    | 1%nat => 0
    | 2%nat => MIN_BRIGHTNESS
    | _ => hi
    end.

(** ** Exceptions *)

Inductive Exception : Type :=
| IOError                       (* [open] failed *)
| ValueError (msg : string)
| IndexError                    (* [LIGHTS[0]] on an empty list *)
| KeyError                      (* [flames[i]] on a missing key *)
| NameError.                    (* use of an unbound local variable *)

Definition Result (A : Type) : Type := Exception + A.

Definition and_then {A B : Type} (m : Result A) (f : A -> Result B) : Result B :=
  match m with
  | inl exn => inl exn
  | inr a => f a
  end.

Notation "'do!' x ':=' m 'in' f" := (and_then m (fun x => f))
  (at level 10, x name, m at level 100, f at level 200).

(** ** Loading the bridge address and the user name *)

(** [str.strip()] removes the characters space, tab, line feed, vertical
    tab, form feed and carriage return from both ends. *)
Definition is_space (c : ascii) : bool :=
  let n := N_of_ascii c in
  ((n =? 32) || ((9 <=? n) && (n <=? 13)))%N.

Definition newline : ascii := "010"%char.

Fixpoint lstrip (s : string) : string :=
  match s with
  | EmptyString => EmptyString
  | String c s' => if is_space c then lstrip s' else s
  end.

Fixpoint rstrip (s : string) : string :=
  match s with
  | EmptyString => EmptyString
  | String c s' =>
      match rstrip s' with
      | EmptyString => if is_space c then EmptyString else String c EmptyString
      | r => String c r
      end
  end.

Definition strip (s : string) : string := rstrip (lstrip s).

(** [f.readlines()]: the content cut after every line feed; every line keeps
    its line feed, and a last line without one is a line all the same. *)
Fixpoint readlines (content : string) : list string :=
  match content with
  | EmptyString => []
  | String c rest =>
      if Ascii.eqb c newline then String c EmptyString :: readlines rest
      else
        match readlines rest with
        | [] => [String c EmptyString]
        | line :: lines => String c line :: lines
        end
  end.

(** The files the program can open: [fs name] is the content of the file
    [name], if there is one. *)
Definition FileSystem : Type := string -> option string.

Definition GetBridgeIpAndUsername (fs : FileSystem) (filename : string)
  : Result (string * string) :=
  match fs filename with
  | None => inl IOError
  | Some content =>
      let lines := strip <$> readlines content in
      if negb (length lines =? 2)%nat
      then inl (ValueError "File must have two lines!")
      else
        match lines !! 0%nat, lines !! 1%nat with
        | Some ip, Some username => inr (ip, username)
        | _, _ => inl IndexError
        end
  end.

(** ** The dispatch loop *)

(** [int(TRANSITION_TIME * 1000)] with [TRANSITION_TIME = 0.005]: the
    product rounds to the double [5.0]. *)
Definition TRANSITION_MS : Z := 5.

Record Response : Type := mkResponse { status_code : Z; text : string }.

(** The bridge as seen by the program: the answer to its [n]-th request. *)
Definition Network : Type := nat -> Response.

Inductive Body : Type :=
| BodyOn                                   (* {'on': True} *)
| BodyBri (bri : Z) (transitiontime : Z).  (* {'bri': ..., 'transitiontime': ...} *)

(** A [requests.put]: the three values formatted into the URL
    [http://<ip>/api/<username>/lights/<light>/state], and the body. *)
Record Request : Type := mkRequest {
  req_ip : string;
  req_username : string;
  req_light : Z;
  req_body : Body
}.

(** What the program does to the outside world, in order. *)
Inductive Event : Type :=
| Put (r : Request)
| PrintInt (z : Z)          (* [print r.status_code] *)
| PrintStr (s : string)     (* [print r.text] *)
| StdoutWrite (line : string)  (* [sys.stdout.write] and [flush] *)
| Sleep.                    (* [time.sleep(TRANSITION_TIME)] *)

(** The local variables of [main], with the position reached in the random
    source and in the network, and the events so far. *)
Record MainState : Type := mkMainState {
  bridge_ip : string;
  username : string;
  flames : gmap Z Flame;
  brightness : option Z;      (* unbound until first assigned *)
  draws : nat;
  requests : nat;
  trace : list Event
}.

Definition emit (evs : list Event) (st : MainState) : MainState :=
  {| bridge_ip := bridge_ip st; username := username st; flames := flames st;
     brightness := brightness st; draws := draws st; requests := requests st;
     trace := trace st ++ evs |}.

(** [r = requests.put(url, data=json.dumps(body))] followed by
    [if r.status_code != 200: print r.status_code; print r.text]. *)
Definition put (net : Network) (i : Z) (body : Body) (st : MainState) : MainState :=
  let r := net (requests st) in
  let req := {| req_ip := bridge_ip st; req_username := username st;
                req_light := i; req_body := body |} in
  let report := if status_code r =? 200 then []
                else [PrintInt (status_code r); PrintStr (text r)] in
  {| bridge_ip := bridge_ip st; username := username st; flames := flames st;
     brightness := brightness st; draws := draws st;
     requests := S (requests st);
     trace := trace st ++ Put req :: report |}.

(** [brightness = flames[i].GetNextFlameBrightness()]: the object stored
    under [i] is mutated, the variable [brightness] is assigned. *)
Definition next_brightness (e : Entropy) (i : Z) (st : MainState) : Result MainState :=
  match flames st !! i with
  | None => inl KeyError
  | Some self =>
      let '(b, self', k') := GetNextFlameBrightness self e (draws st) in
      inr {| bridge_ip := bridge_ip st; username := username st;
             flames := <[i := self']> (flames st);
             brightness := Some b; draws := k'; requests := requests st;
             trace := trace st |}
  end.

(** The body of [for i in LIGHTS] inside the loop. *)
Definition send_brightness (e : Entropy) (net : Network) (in_sync : bool)
    (i : Z) (st : MainState) : Result MainState :=
  do! st := (if in_sync then inr st else next_brightness e i st) in
  match brightness st with
  | None => inl NameError
  | Some b => inr (put net i (BodyBri b TRANSITION_MS) st)
  end.

Fixpoint for_lights (body : Z -> MainState -> Result MainState)
    (lights : list Z) (st : MainState) : Result MainState :=
  match lights with
  | [] => inr st
  | i :: lights' => do! st := body i st in for_lights body lights' st
  end.

(** [' ' * n] and ['-' * n]; a count below one gives the empty string. *)
Definition times (c : ascii) (n : Z) : string :=
  Nat.iter (Z.to_nat n) (String c) EmptyString.

(** The debug line.  [int] truncates toward zero; on brightness values of
    the simulation the floating-point quotients are exact enough for the
    truncation to be that of the integer quotient. *)
Definition debug_line (b : Z) : string :=
  let width := 51 in
  let percent := Z.quot (width * b) MAX_BRIGHTNESS in
  let pad := Z.quot (width - percent) 2 in
  (times " " pad +:+ times "-" percent +:+ times " " pad +:+ String "013" EmptyString)%string.

(** [LIGHTS[0]] *)
Definition first_light (lights : list Z) : Result Z :=
  match lights with
  | [] => inl IndexError
  | i :: _ => inr i
  end.

(** One iteration of [while True]. *)
Definition loop_body (send_to_hue in_sync : bool) (lights : list Z)
    (e : Entropy) (net : Network) (st : MainState) : Result MainState :=
  do! st :=
    (if send_to_hue then
       do! st := (if in_sync
                  then do! i0 := first_light lights in next_brightness e i0 st
                  else inr st) in
       for_lights (send_brightness e net in_sync) lights st
     else
       do! i0 := first_light lights in
       do! st := next_brightness e i0 st in
       match brightness st with
       | None => inl NameError
       | Some b => inr (emit [StdoutWrite (debug_line b)] st)
       end) in
  inr (emit [Sleep] st).

(** The first [n] iterations of the loop. *)
Fixpoint loop (n : nat) (send_to_hue in_sync : bool) (lights : list Z)
    (e : Entropy) (net : Network) (st : MainState) : Result MainState :=
  match n with
  | O => inr st
  | S n' =>
      do! st := loop_body send_to_hue in_sync lights e net st in
      loop n' send_to_hue in_sync lights e net st
  end.

(** [for i in LIGHTS: flames[i] = Flame()] *)
Definition create_flames (lights : list Z) : gmap Z Flame :=
  foldl (fun m i => <[i := Flame_init]> m) ∅ lights.

(** [main] up to the loop: credentials, power-on commands, flames.  The
    random source may have been used [k] times before. *)
Definition startup (send_to_hue : bool) (lights : list Z)
    (fs : FileSystem) (net : Network) (k : nat) : Result MainState :=
  do! cred := GetBridgeIpAndUsername fs "./bridge_ip_and_username.txt" in
  let st := {| bridge_ip := fst cred; username := snd cred; flames := ∅;
               brightness := None; draws := k; requests := O; trace := [] |} in
  do! st := (if send_to_hue
             then for_lights (fun i st => inr (put net i BodyOn st)) lights st
             else inr st) in
  inr {| bridge_ip := bridge_ip st; username := username st;
         flames := create_flames lights;
         brightness := brightness st; draws := draws st;
         requests := requests st; trace := trace st |}.

(** [main], stopped after [n] iterations of its loop. *)
Definition main_with (send_to_hue in_sync : bool) (lights : list Z)
    (fs : FileSystem) (e : Entropy) (net : Network) (k n : nat) : Result MainState :=
  do! st := startup send_to_hue lights fs net k in
  loop n send_to_hue in_sync lights e net st.

Definition main : FileSystem -> Entropy -> Network -> nat -> nat -> Result MainState :=
  main_with SEND_TO_HUE IN_SYNC LIGHTS.

(** The brightness commands among some events: light and brightness. *)
Definition brightness_commands (evs : list Event) : list (Z * Z) :=
  omap (fun ev => match ev with
                  | Put {| req_light := i; req_body := BodyBri b _ |} => Some (i, b)
                  | _ => None
                  end) evs.

(** A file system holding a well-formed credential file, and a bridge that
    accepts every request. *)
Definition demo_fs : FileSystem :=
  fun name => if String.eqb name "./bridge_ip_and_username.txt"
              then Some (String.append "192.168.1.42"
                          (String newline (String.append "ab8d8fbd8d8d8bdbd88d8bd80898"
                                            (String newline EmptyString))))
              else None.
Definition demo_net : Network := fun _ => {| status_code := 200; text := EmptyString |}.

(** A credential file whose first line has blanks around the address. *)
Definition padded_file : string :=
  String.append " 192.168.1.42 " (String newline (String.append "user" (String newline EmptyString))).
Definition padded_fs : FileSystem := fun _ => Some padded_file.


(** The state in which [main] enters its loop with [demo_fs] and
    [demo_net]: both lights switched on, one fresh flame each. *)
Definition demo_state : MainState :=
  let ip := "192.168.1.42"%string in
  let user := "ab8d8fbd8d8d8bdbd88d8bd80898"%string in
  {| bridge_ip := ip; username := user;
     flames := create_flames LIGHTS;
     brightness := None; draws := 0; requests := 2;
     trace := [Put {| req_ip := ip; req_username := user; req_light := 2; req_body := BodyOn |};
               Put {| req_ip := ip; req_username := user; req_light := 4; req_body := BodyOn |}] |}.

(** ** Further vocabulary for runs of the flame and of the loop *)

(** [n] calls in a row on which the gust roll fails (the first draw of the
    call is not below [WIND_VARIABILITY]); the wind-threshold roll is free. *)
Fixpoint gustless_run (e : Entropy) (k : nat) (self : Flame) (n : nat) : Prop :=
  match n with
  | O => True
  | S n' =>
      WIND_VARIABILITY <= e k 0 1000 /\
      gustless_run e (draws_after e k self) (flame_after e k self) n'
  end.

(** The values [flameprime] can take: from [MIN_BRIGHTNESS] to
    [MAX_BRIGHTNESS] in steps of [FLAME_AGILITY]. *)
Definition brightness_levels : list Z := [100; 120; 140; 160; 180; 200; 220].

(** The requests among some events. *)
Definition requests_of (evs : list Event) : list Request :=
  omap (fun ev => match ev with Put r => Some r | _ => None end) evs.

(** The power-on commands among some events: the lights addressed. *)
Definition power_commands (evs : list Event) : list Z :=
  omap (fun ev => match ev with
                  | Put {| req_light := i; req_body := BodyOn |} => Some i
                  | _ => None
                  end) evs.


(** A bridge that refuses every request. *)
Definition failing_net : Network :=
  fun _ => {| status_code := 500; text := "error" |}.

(** A request as [main] is meant to make them: to the bridge and under the
    user name loaded at startup, for a configured light, and either a
    power-on or a brightness whose value satisfies [Q], with the transition
    time of the program. *)
Definition good_request (lights : list Z) (ip user : string) (Q : Z -> Prop)
    (r : Request) : Prop :=
  req_ip r = ip /\ req_username r = user /\ req_light r ∈ lights /\
  match req_body r with
  | BodyOn => True
  | BodyBri b t => Q b /\ t = TRANSITION_MS
  end.

(** An invariant of the loop of [main], for a property [P] of the flames in
    the dictionary and a property [Q] of the brightness values. *)
Record loop_inv (lights : list Z) (ip user : string) (P : Flame -> Prop)
    (Q : Z -> Prop) (st : MainState) : Prop := mk_loop_inv {
  inv_keys : forall i, i ∈ lights -> is_Some (flames st !! i);
  inv_flames : forall i self, flames st !! i = Some self -> P self;
  inv_brightness : forall b, brightness st = Some b -> Q b;
  inv_ip : bridge_ip st = ip;
  inv_user : username st = user;
  inv_requests : forall r, r ∈ requests_of (trace st) -> good_request lights ip user Q r
}.



(** Whether the character [c] occurs in [s]. *)
Fixpoint occurs (c : ascii) (s : string) : bool :=
  match s with
  | EmptyString => false
  | String c' s' => Ascii.eqb c c' || occurs c s'
  end.

(** What the program prints: the events of its [print] statements. *)
Definition is_print (ev : Event) : bool :=
  match ev with
  | PrintInt _ | PrintStr _ => true
  | _ => false
  end.

Definition printed (evs : list Event) : list Event := List.filter is_print evs.

(** What is printed about a response: nothing on status 200, else the
    status code and the text. *)
Definition report (r : Response) : list Event :=
  if status_code r =? 200 then [] else [PrintInt (status_code r); PrintStr (text r)].

(** The state has printed what its requests so far call for: for each
    request, in order, the report on its response. *)
Definition reported_by (net : Network) (st : MainState) : Prop :=
  printed (trace st) = mjoin ((fun j => report (net j)) <$> seq 0 (requests st)).

(** * Properties of the flame

    ** Invariant of the simulation *)

Ltac unfold_consts :=
  unfold MAX_BRIGHTNESS, MIN_BRIGHTNESS, WIND_VARIABILITY, FLAME_AGILITY,
    WIND_BASELINE in *.

Ltac unfold_call :=
  unfold brightness_of, flame_after, draws_after, GetNextFlameBrightness,
    before_inertia, gust, knock, bind, ret, randint in *.

(** Case analysis on every test of the call, leaving arithmetic goals. *)
Ltac fields :=
  cbn [flame flameprime wind set_flame set_flameprime set_wind fst snd] in *.

Ltac split_test :=
  match goal with
  | |- context [?a <? ?b] => destruct (Z.ltb_spec a b)
  | |- context [?a >? ?b] => destruct (Z.gtb_spec a b)
  end; fields.

Ltac split_tests :=
  repeat split_test; unfold inertia, rise, settle in *; fields; repeat split_test.

Lemma flame_inv_init : flame_inv Flame_init.
Proof. split; unfold Flame_init; cbn; unfold_consts; lia. Qed.

Lemma flame_inv_call (e : Entropy) (k : nat) (self : Flame) :
  in_range e -> flame_inv self -> flame_inv (flame_after e k self).
Proof.
  intros He [Hf Hp Hw].
  pose proof (He (S k) 0 255 ltac:(lia)) as Hg.
  assert (Hk : forall j, MIN_BRIGHTNESS <= e j MIN_BRIGHTNESS MAX_BRIGHTNESS <= MAX_BRIGHTNESS)
    by (intros j; apply He; unfold_consts; lia).
  pose proof (Hk (S (S k))) as Hk2. pose proof (Hk (S (S (S k)))) as Hk3.
  unfold_call. split; split_tests; unfold_consts; lia.
Qed.

Lemma reachable_inv (self : Flame) : reachable self -> flame_inv self.
Proof.
  induction 1 as [|e k self He _ IH]; [apply flame_inv_init | by apply flame_inv_call].
Qed.

(** The returned value is the field [flameprime] of the mutated object. *)
Lemma brightness_is_flameprime (e : Entropy) (k : nat) (self : Flame) :
  brightness_of e k self = flameprime (flame_after e k self).
Proof. unfold_call. by repeat case_match. Qed.

Lemma in_range_lowest : in_range lowest.
Proof. intros k lo hi Hle. unfold lowest. lia. Qed.

Lemma in_range_highest : in_range highest.
Proof. intros k lo hi Hle. unfold highest. lia. Qed.

(** The statements before the filter leave [flameprime] alone. *)
Lemma before_inertia_flameprime (e : Entropy) (k : nat) (self : Flame) :
  flameprime (fst (before_inertia self e k)) = flameprime self.
Proof. unfold_call. split_tests; reflexivity. Qed.

Lemma flame_after_inertia (e : Entropy) (k : nat) (self : Flame) :
  flame_after e k self = inertia (fst (before_inertia self e k)).
Proof. unfold_call. by repeat case_match. Qed.

(** The filter moves [flameprime] by at most [FLAME_AGILITY], and keeps it
    between the two bounds. *)
Lemma inertia_step (self : Flame) :
  MIN_BRIGHTNESS <= flameprime self <= MAX_BRIGHTNESS ->
  MIN_BRIGHTNESS <= flameprime (inertia self) <= MAX_BRIGHTNESS /\
  Z.abs (flameprime (inertia self) - flameprime self) <= FLAME_AGILITY.
Proof. intros Hp. unfold inertia. split_tests; unfold_consts; lia. Qed.

(** C1. From every reachable state and for every outcome of the random
    source, [GetNextFlameBrightness] returns a value between
    [MIN_BRIGHTNESS] and [MAX_BRIGHTNESS], and [flameprime] lies between
    them after the call. *)
Theorem brightness_in_range (e : Entropy) (k : nat) (self : Flame) :
  in_range e -> reachable self ->
  MIN_BRIGHTNESS <= brightness_of e k self <= MAX_BRIGHTNESS /\
  MIN_BRIGHTNESS <= flameprime (flame_after e k self) <= MAX_BRIGHTNESS.
Proof.
  intros He Hr. rewrite brightness_is_flameprime.
  pose proof (reachable_inv _ (reachable_call e k self He Hr)) as [_ Hp _].
  by split.
Qed.

Lemma brightness_in_range_witness :
  MIN_BRIGHTNESS <= brightness_of lowest 0 Flame_init <= MAX_BRIGHTNESS /\
  MIN_BRIGHTNESS <= flameprime (flame_after lowest 0 Flame_init) <= MAX_BRIGHTNESS.
Proof.
  apply (brightness_in_range lowest 0 Flame_init).
  - intros k lo hi Hle. unfold lowest. lia.
  - apply reachable_init.
Defined.

(** C3. When [flame == flameprime] at the inertial filter, the [else]
    branch runs: the new [flameprime] is
    [max(flameprime - FLAME_AGILITY, MIN_BRIGHTNESS)]; it is unchanged
    exactly when [flameprime] already is [MIN_BRIGHTNESS], and strictly
    smaller otherwise. *)
Theorem equality_takes_decrease_branch (e : Entropy) (k : nat) (self : Flame) :
  reachable self ->
  flame (fst (before_inertia self e k)) = flameprime (fst (before_inertia self e k)) ->
  flameprime (flame_after e k self)
    = Z.max (flameprime self - FLAME_AGILITY) MIN_BRIGHTNESS /\
  (flameprime (flame_after e k self) = flameprime self
     <-> flameprime self = MIN_BRIGHTNESS) /\
  (flameprime self <> MIN_BRIGHTNESS ->
     flameprime (flame_after e k self) < flameprime self).
Proof.
  intros Hr Heq. apply reachable_inv in Hr as [_ Hp _].
  rewrite flame_after_inertia.
  pose proof (before_inertia_flameprime e k self) as Hsame.
  destruct (fst (before_inertia self e k)) as [f p w]. cbn in Heq, Hsame. subst.
  unfold inertia; cbn [flame flameprime wind set_flameprime].
  destruct (Z.gtb_spec (flameprime self) (flameprime self)); [lia|].
  cbn [flameprime set_flameprime]. unfold_consts. lia.
Qed.

Lemma equality_takes_decrease_branch_witness :
  flameprime (flame_after highest 0 Flame_init)
    = Z.max (flameprime Flame_init - FLAME_AGILITY) MIN_BRIGHTNESS /\
  (flameprime (flame_after highest 0 Flame_init) = flameprime Flame_init
     <-> flameprime Flame_init = MIN_BRIGHTNESS) /\
  (flameprime Flame_init <> MIN_BRIGHTNESS ->
     flameprime (flame_after highest 0 Flame_init) < flameprime Flame_init).
Proof.
  apply (equality_takes_decrease_branch highest 0 Flame_init).
  - apply reachable_init.
  - reflexivity.
Defined.

(** C5. Bounded change law: a call moves [flameprime] by at most
    [FLAME_AGILITY], from every reachable state and whatever the random
    source hands out. *)
Theorem bounded_change (e : Entropy) (k : nat) (self : Flame) :
  reachable self ->
  Z.abs (flameprime (flame_after e k self) - flameprime self) <= FLAME_AGILITY.
Proof.
  intros Hr. apply reachable_inv in Hr as [_ Hp _].
  rewrite flame_after_inertia.
  pose proof (before_inertia_flameprime e k self) as Hsame.
  rewrite <- Hsame in Hp. rewrite <- Hsame.
  by apply inertia_step.
Qed.

Lemma bounded_change_witness :
  Z.abs (flameprime (flame_after lowest 0 Flame_init) - flameprime Flame_init)
    <= FLAME_AGILITY.
Proof. apply (bounded_change lowest 0 Flame_init). apply reachable_init. Defined.

(** C6. After every call [wind] lies in [0, 255]: the gust assigns a draw
    from [0, 255], and settling takes one off only above
    [WIND_BASELINE]. *)
Theorem wind_in_range (e : Entropy) (k : nat) (self : Flame) :
  in_range e -> reachable self ->
  0 <= wind (flame_after e k self) <= 255 /\
  wind (settle self)
    = (if wind self >? WIND_BASELINE then wind self - 1 else wind self) /\
  0 <= wind (fst (gust self e k)) <= 255.
Proof.
  intros He Hr.
  pose proof (reachable_inv _ (reachable_call e k self He Hr)) as [_ _ Hw'].
  pose proof (reachable_inv _ Hr) as [_ _ Hw].
  split; [done|]. split.
  - unfold settle. by destruct (wind self >? WIND_BASELINE).
  - pose proof (He (S k) 0 255 ltac:(lia)).
    unfold gust, bind, ret, randint. split_tests; lia.
Qed.

Lemma wind_in_range_witness :
  0 <= wind (flame_after lowest 0 Flame_init) <= 255 /\
  wind (settle Flame_init)
    = (if wind Flame_init >? WIND_BASELINE then wind Flame_init - 1
       else wind Flame_init) /\
  0 <= wind (fst (gust Flame_init lowest 0%nat)) <= 255.
Proof.
  apply (wind_in_range lowest 0 Flame_init).
  - intros k lo hi Hle. unfold lowest. lia.
  - apply reachable_init.
Defined.

(** ** Determinism *)

(** A call makes two, three or four draws. *)
Lemma draws_after_bounds (e : Entropy) (k : nat) (self : Flame) :
  (k + 2 <= draws_after e k self <= k + 4)%nat.
Proof. unfold_call. split_tests; cbn; lia. Qed.

(** A call reads the random source at its next four positions only. *)
Lemma call_agree (e1 e2 : Entropy) (k : nat) (self : Flame) :
  (forall j lo hi, (k <= j < k + 4)%nat -> e1 j lo hi = e2 j lo hi) ->
  GetNextFlameBrightness self e1 k = GetNextFlameBrightness self e2 k.
Proof.
  intros Hagree.
  assert (H0 : forall lo hi, e1 k lo hi = e2 k lo hi) by (intros; apply Hagree; lia).
  assert (H1 : forall lo hi, e1 (S k) lo hi = e2 (S k) lo hi)
    by (intros; apply Hagree; lia).
  assert (H2 : forall lo hi, e1 (S (S k)) lo hi = e2 (S (S k)) lo hi)
    by (intros; apply Hagree; lia).
  assert (H3 : forall lo hi, e1 (S (S (S k))) lo hi = e2 (S (S (S k))) lo hi)
    by (intros; apply Hagree; lia).
  unfold_call. rewrite H0.
  destruct (e2 k 0 1000 <? WIND_VARIABILITY); rewrite ?H1, ?H2;
    match goal with |- context [?a <? wind ?s] => destruct (a <? wind s) end;
    rewrite ?H2, ?H3; reflexivity.
Qed.

Lemma ticks_succ (n : nat) (e : Entropy) (k : nat) (self : Flame) :
  ticks (S n) self e k =
    let rest := ticks n (flame_after e k self) e (draws_after e k self) in
    ((brightness_of e k self :: fst (fst rest), snd (fst rest)), snd rest).
Proof.
  cbn [ticks]. unfold bind at 1, brightness_of, flame_after, draws_after.
  destruct (GetNextFlameBrightness self e k) as [[b s'] k']. cbn [fst snd].
  unfold bind, ret. by destruct (ticks n s' e k') as [[out s''] k''].
Qed.

(** C7. Two runs started from equal states and fed the same draws return
    the same values, end in the same state and have made the same number of
    draws; only the draws a run can reach (four per call at most) need to
    be the same. *)
Theorem deterministic_given_entropy (e1 e2 : Entropy) (k n : nat) (s1 s2 : Flame) :
  s1 = s2 ->
  (forall j lo hi, (k <= j < k + 4 * n)%nat -> e1 j lo hi = e2 j lo hi) ->
  ticks n s1 e1 k = ticks n s2 e2 k.
Proof.
  intros <-. revert k s1. induction n as [|n IH]; intros k s Hagree; [reflexivity|].
  rewrite !ticks_succ.
  assert (Hcall : GetNextFlameBrightness s e1 k = GetNextFlameBrightness s e2 k)
    by (apply call_agree; intros; apply Hagree; lia).
  unfold brightness_of, flame_after, draws_after. rewrite Hcall.
  pose proof (draws_after_bounds e2 k s) as Hb. unfold draws_after in Hb.
  rewrite IH; [reflexivity|].
  intros j lo hi Hj. apply Hagree. lia.
Qed.

Lemma deterministic_given_entropy_witness :
  ticks 2 Flame_init lowest 0%nat
    = ticks 2 Flame_init (fun j lo hi => if (j <? 8)%nat then lo else hi) 0%nat.
Proof.
  apply (deterministic_given_entropy lowest
           (fun j lo hi => if (j <? 8)%nat then lo else hi) 0 2
           Flame_init Flame_init).
  - reflexivity.
  - intros j lo hi Hj. unfold lowest.
    destruct (Nat.ltb_spec j 8); [reflexivity | lia].
Defined.

(** ** Calm runs *)

Lemma calm_call_step (e : Entropy) (k : nat) (self : Flame) :
  calm_call e k self ->
  GetNextFlameBrightness self e k
    = (flameprime (calm_step self), calm_step self, S (S k)).
Proof.
  intros [Hg Hw]. unfold_call. unfold calm_step.
  destruct (Z.ltb_spec (e k 0 1000) WIND_VARIABILITY); [lia|].
  assert (Hrise : wind (rise (settle self)) = wind (settle self))
    by (unfold rise; by destruct (flame (settle self) <? MAX_BRIGHTNESS)).
  destruct (Z.ltb_spec (e (S k) 0 255) (wind (rise (settle self)))); [lia|].
  reflexivity.
Qed.

(** A call is calm exactly when it makes two draws. *)
Lemma calm_call_two_draws (e : Entropy) (k : nat) (self : Flame) :
  calm_call e k self <-> draws_after e k self = S (S k).
Proof.
  split.
  - intros Hc. unfold draws_after. by rewrite calm_call_step.
  - unfold calm_call. unfold_call.
    assert (Hrise : forall s, wind (rise s) = wind s)
      by (intros s; unfold rise; by destruct (flame s <? MAX_BRIGHTNESS)).
    destruct (Z.ltb_spec (e k 0 1000) WIND_VARIABILITY); cbn [fst snd].
    + destruct (_ <? _); cbn; lia.
    + rewrite Hrise.
      destruct (Z.ltb_spec (e (S k) 0 255) (wind (settle self))); cbn; [lia|].
      intros _. split; lia.
Qed.

Lemma calm_run_ticks (e : Entropy) (n k : nat) (self : Flame) :
  calm_run e k self n ->
  fst (ticks n self e k) = (calm_outputs n self, Nat.iter n calm_step self).
Proof.
  revert k self. induction n as [|n IH]; intros k self Hrun; [reflexivity|].
  destruct Hrun as [Hc Hrun]. rewrite ticks_succ.
  unfold brightness_of, flame_after, draws_after in *.
  rewrite (calm_call_step e k self Hc) in *. cbn [fst snd] in *.
  rewrite (IH _ _ Hrun). cbn [fst snd calm_outputs].
  by rewrite Nat.iter_succ_r.
Qed.

(** A calm call reads and writes [wind] only in [settle]: the brightness
    values do not depend on it. *)
Lemma calm_step_fields (self : Flame) :
  flame (calm_step self)
    = (if flame self <? MAX_BRIGHTNESS then flame self + 1 else flame self) /\
  flameprime (calm_step self)
    = (if flame (calm_step self) >? flameprime self
       then Z.min (flameprime self + FLAME_AGILITY) MAX_BRIGHTNESS
       else Z.max (flameprime self - FLAME_AGILITY) MIN_BRIGHTNESS).
Proof.
  destruct self as [f p w]. unfold calm_step, inertia, rise, settle. fields.
  destruct (w >? WIND_BASELINE); fields; destruct (f <? MAX_BRIGHTNESS); fields;
    destruct (_ >? p) eqn:Hgt; fields; rewrite ?Hgt; split; reflexivity.
Qed.

Lemma calm_outputs_ext (n : nat) (s s' : Flame) :
  flame s = flame s' -> flameprime s = flameprime s' ->
  calm_outputs n s = calm_outputs n s'.
Proof.
  revert s s'. induction n as [|n IH]; intros s s' Hf Hp; [reflexivity|].
  cbn [calm_outputs].
  destruct (calm_step_fields s) as [Hf1 Hp1], (calm_step_fields s') as [Hf2 Hp2].
  assert (Hf' : flame (calm_step s) = flame (calm_step s'))
    by (by rewrite Hf1, Hf2, Hf).
  assert (Hp' : flameprime (calm_step s) = flameprime (calm_step s'))
    by (by rewrite Hp1, Hp2, Hf', Hp).
  rewrite Hp'. f_equal. by apply IH.
Qed.

Lemma calm_iter_flame (n : nat) (self : Flame) :
  flame self <= MAX_BRIGHTNESS ->
  flame (Nat.iter n calm_step self) = Z.min (flame self + Z.of_nat n) MAX_BRIGHTNESS.
Proof.
  intros Hle. induction n as [|n IH].
  - cbn. lia.
  - rewrite Nat.iter_succ. destruct (calm_step_fields (Nat.iter n calm_step self)) as [-> _].
    rewrite IH. destruct (Z.ltb_spec (Z.min (flame self + Z.of_nat n) MAX_BRIGHTNESS) MAX_BRIGHTNESS); lia.
Qed.

Lemma calm_run_prefix (e : Entropy) (n k : nat) (self : Flame) :
  calm_run e k self (S n) -> calm_run e k self n.
Proof.
  revert k self. induction n as [|n IH]; intros k self [Hc Hrun]; [exact I|].
  split; [exact Hc | by apply IH].
Qed.

(** ** Scenario A: one knock to the floor, then calm *)

(** C2, as stated, fails: with the test double of scenario A the flame is
    knocked to 100 on the first call and every later call is calm, the
    values returned go down by 20 to 100 on the sixth call, and the seventh
    call returns 120, not 100. *)
Lemma scenario_A_leaves_the_floor :
  flame Flame_init = 220 /\ flameprime Flame_init = 220 /\
  flame (fst (before_inertia Flame_init scenario_A_stub 0%nat)) = 100 /\
  calm_run scenario_A_stub (draws_after scenario_A_stub 0 Flame_init)
    (flame_after scenario_A_stub 0 Flame_init) 6 /\
  fst (fst (ticks 7 Flame_init scenario_A_stub 0%nat))
    = [200; 180; 160; 140; 120; 100; 120] /\
  fst (fst (ticks 7 Flame_init scenario_A_stub 0%nat))
    <> [200; 180; 160; 140; 120; 100; 100].
Proof.
  repeat split; try reflexivity; try (vm_compute; discriminate).
Qed.

(** C2, amended.  From [flame = flameprime = 220], a first call whose knock
    sets [flame] to 100, followed by calm calls: the values returned are
    200, 180, 160, 140, 120, 100 on the first six calls; the floor is not
    held, as [flame] has risen above it: from the seventh call to the
    twenty-first the values alternate between 120 and 100. *)
Theorem scenario_A (e : Entropy) (k : nat) (self : Flame) :
  flame self = MAX_BRIGHTNESS -> flameprime self = MAX_BRIGHTNESS ->
  flame (fst (before_inertia self e k)) = MIN_BRIGHTNESS ->
  calm_run e (draws_after e k self) (flame_after e k self) 20 ->
  fst (fst (ticks 21 self e k))
    = [200; 180; 160; 140; 120; 100;
       120; 100; 120; 100; 120; 100; 120; 100; 120; 100; 120; 100; 120; 100; 120].
Proof.
  intros Hf Hp Hknock Hcalm.
  rewrite ticks_succ. cbn zeta. cbn [fst snd].
  rewrite (calm_run_ticks _ _ _ _ Hcalm). cbn [fst].
  rewrite brightness_is_flameprime, flame_after_inertia.
  pose proof (before_inertia_flameprime e k self) as Hsame. rewrite Hp in Hsame.
  set (s4 := fst (before_inertia self e k)) in *.
  assert (Hin : inertia s4 = set_flameprime 200 s4)
    by (unfold inertia; rewrite Hknock, Hsame; reflexivity).
  rewrite Hin.
  rewrite (calm_outputs_ext 20 (set_flameprime 200 s4)
             {| flame := 100; flameprime := 200; wind := 0 |}).
  - reflexivity.
  - exact Hknock.
  - reflexivity.
Qed.

Lemma scenario_A_witness :
  fst (fst (ticks 21 Flame_init scenario_A_stub 0%nat))
    = [200; 180; 160; 140; 120; 100;
       120; 100; 120; 100; 120; 100; 120; 100; 120; 100; 120; 100; 120; 100; 120].
Proof.
  apply (scenario_A scenario_A_stub 0 Flame_init).
  - reflexivity.
  - reflexivity.
  - reflexivity.
  - vm_compute. repeat split; discriminate.
Defined.

(** ** Scenario B: no gust at all *)

(** C4, as stated, fails: the freshly constructed flame is at the maximum,
    the oracle [highest] makes every call calm, and after one call
    [flameprime] is 200: it neither stayed at [MAX_BRIGHTNESS] nor rose by
    [FLAME_AGILITY] up to the clamp; after a second call it is back at
    220. *)
Lemma scenario_B_not_steady :
  reachable Flame_init /\ calm_run highest 0 Flame_init 2 /\
  flame Flame_init = MAX_BRIGHTNESS /\ flameprime Flame_init = MAX_BRIGHTNESS /\
  flameprime (snd (fst (ticks 1 Flame_init highest 0%nat))) = 200 /\
  flameprime (snd (fst (ticks 1 Flame_init highest 0%nat)))
    <> Z.min (flameprime Flame_init + FLAME_AGILITY) MAX_BRIGHTNESS /\
  flameprime (snd (fst (ticks 2 Flame_init highest 0%nat))) = 220.
Proof.
  split; [apply reachable_init|].
  split; [vm_compute; repeat split; discriminate|].
  repeat split; try reflexivity. vm_compute. discriminate.
Qed.

(** C4, amended.  In a run of calm calls from a reachable state, [flame]
    after [n] calls is [min(flame + n, MAX_BRIGHTNESS)]: it goes up by one
    per call and holds at the maximum.  On each call [flameprime] goes up
    by [FLAME_AGILITY], clamped at [MAX_BRIGHTNESS], when the new [flame]
    is above it, and otherwise goes down by [FLAME_AGILITY], clamped at
    [MIN_BRIGHTNESS]; so from [flame = flameprime = MAX_BRIGHTNESS] it
    drops to [MAX_BRIGHTNESS - FLAME_AGILITY], and from there, with [flame]
    at the maximum, it is back at [MAX_BRIGHTNESS] on the next call. *)
Theorem scenario_B (e : Entropy) (k n : nat) (self : Flame) :
  reachable self -> calm_run e k self (S n) ->
  let before := snd (fst (ticks n self e k)) in
  let after := snd (fst (ticks (S n) self e k)) in
  flame after = Z.min (flame self + Z.of_nat (S n)) MAX_BRIGHTNESS /\
  flameprime after
    = (if flame after >? flameprime before
       then Z.min (flameprime before + FLAME_AGILITY) MAX_BRIGHTNESS
       else Z.max (flameprime before - FLAME_AGILITY) MIN_BRIGHTNESS) /\
  (flame before = MAX_BRIGHTNESS -> flameprime before = MAX_BRIGHTNESS ->
     flameprime after = MAX_BRIGHTNESS - FLAME_AGILITY) /\
  (flame before = MAX_BRIGHTNESS ->
     flameprime before = MAX_BRIGHTNESS - FLAME_AGILITY ->
     flameprime after = MAX_BRIGHTNESS).
Proof.
  intros Hr Hrun before after.
  pose proof (calm_run_prefix _ _ _ _ Hrun) as Hrun'.
  subst before after.
  rewrite (calm_run_ticks _ _ _ _ Hrun), (calm_run_ticks _ _ _ _ Hrun').
  cbn [fst snd]. rewrite Nat.iter_succ.
  set (s := Nat.iter n calm_step self).
  destruct (calm_step_fields s) as [Hf Hp].
  apply reachable_inv in Hr as [[_ Hle] _ _].
  split; [|split; [exact Hp|split]].
  - pose proof (calm_iter_flame (S n) self Hle) as Hflame.
    by rewrite Nat.iter_succ in Hflame.
  - intros Hfs Hps. rewrite Hp, Hf, Hfs, Hps. reflexivity.
  - intros Hfs Hps. rewrite Hp, Hf, Hfs, Hps. reflexivity.
Qed.

Lemma scenario_B_witness :
  let before := snd (fst (ticks 1 Flame_init highest 0%nat)) in
  let after := snd (fst (ticks 2 Flame_init highest 0%nat)) in
  flame after = Z.min (flame Flame_init + Z.of_nat 2) MAX_BRIGHTNESS /\
  flameprime after
    = (if flame after >? flameprime before
       then Z.min (flameprime before + FLAME_AGILITY) MAX_BRIGHTNESS
       else Z.max (flameprime before - FLAME_AGILITY) MIN_BRIGHTNESS) /\
  (flame before = MAX_BRIGHTNESS -> flameprime before = MAX_BRIGHTNESS ->
     flameprime after = MAX_BRIGHTNESS - FLAME_AGILITY) /\
  (flame before = MAX_BRIGHTNESS ->
     flameprime before = MAX_BRIGHTNESS - FLAME_AGILITY ->
     flameprime after = MAX_BRIGHTNESS).
Proof.
  apply (scenario_B highest 0 1 Flame_init).
  - apply reachable_init.
  - vm_compute. repeat split; discriminate.
Defined.

(** * Properties of the credential loader *)

Lemma length_two {A : Type} (l : list A) :
  length l = 2%nat -> exists a b, l = [a; b].
Proof. destruct l as [|a [|b [|c l]]]; cbn; intros H; try lia. by exists a, b. Qed.

Example readlines_keeps_line_feeds :
  readlines (String "a" (String newline (String "b" EmptyString)))
    = [String "a" (String newline EmptyString); "b"%string].
Proof. reflexivity. Qed.

Example strip_both_ends :
  strip (String " " (String "a" (String " " (String "b" (String newline EmptyString)))))
    = "a b"%string.
Proof. reflexivity. Qed.

Example three_lines_refused :
  GetBridgeIpAndUsername
    (fun _ => Some (String "a" (String newline (String "b" (String newline
                     (String newline EmptyString)))))) "cred.txt"
    = inl (ValueError "File must have two lines!").
Proof. reflexivity. Qed.

(** C9, as stated, fails: a file of exactly two lines whose first line
    reads [ 192.168.1.42 ], blanks included, is accepted, and the pair
    returned holds neither line as it is in the file, with or without its
    line feed: the blanks around the address are gone. *)
Lemma padded_lines_are_stripped :
  readlines padded_file
    = [String.append " 192.168.1.42 " (String newline EmptyString);
       String.append "user" (String newline EmptyString)] /\
  GetBridgeIpAndUsername padded_fs "cred.txt" = inr ("192.168.1.42", "user")%string /\
  GetBridgeIpAndUsername padded_fs "cred.txt"
    <> inr (String.append " 192.168.1.42 " (String newline EmptyString),
            String.append "user" (String newline EmptyString)) /\
  GetBridgeIpAndUsername padded_fs "cred.txt" <> inr (" 192.168.1.42 ", "user")%string.
Proof. repeat split; try reflexivity; vm_compute; discriminate. Qed.

(** C9, amended.  On a file that can be opened, [GetBridgeIpAndUsername]
    raises [ValueError] if and only if [readlines] does not give exactly two
    lines; on exactly two lines it does not fail and returns the first and
    the second line, each stripped of the white space (line feed included)
    at both ends. *)
Theorem GetBridgeIpAndUsername_two_lines (fs : FileSystem) (filename content : string) :
  fs filename = Some content ->
  (GetBridgeIpAndUsername fs filename = inl (ValueError "File must have two lines!")
     <-> length (readlines content) <> 2%nat) /\
  (length (readlines content) = 2%nat ->
     exists l0 l1, readlines content = [l0; l1] /\
       GetBridgeIpAndUsername fs filename = inr (strip l0, strip l1)).
Proof.
  intros Hopen. unfold GetBridgeIpAndUsername. rewrite Hopen.
  rewrite length_fmap.
  destruct (Nat.eqb_spec (length (readlines content)) 2) as [Hlen|Hlen]; cbn [negb].
  - destruct (length_two _ Hlen) as (l0 & l1 & Hl). rewrite Hl. cbn.
    split; [split; [discriminate | congruence]|].
    intros _. exists l0, l1. by split.
  - split; [by split | congruence].
Qed.

Lemma GetBridgeIpAndUsername_two_lines_witness :
  (GetBridgeIpAndUsername padded_fs "cred.txt"
     = inl (ValueError "File must have two lines!")
     <-> length (readlines padded_file) <> 2%nat) /\
  (length (readlines padded_file) = 2%nat ->
     exists l0 l1, readlines padded_file = [l0; l1] /\
       GetBridgeIpAndUsername padded_fs "cred.txt" = inr (strip l0, strip l1)).
Proof.
  apply (GetBridgeIpAndUsername_two_lines padded_fs "cred.txt" padded_file).
  reflexivity.
Defined.

(** * Properties of the dispatch loop *)

Lemma create_flames_lookup_from (lights : list Z) (m : gmap Z Flame) (i : Z) :
  foldl (fun m i => <[i := Flame_init]> m) m lights !! i
    = if decide (i ∈ lights) then Some Flame_init else m !! i.
Proof.
  revert m. induction lights as [|j lights IH]; intros m; cbn [foldl].
  - case_decide as Hin; [by apply elem_of_nil in Hin | reflexivity].
  - rewrite IH. destruct (decide (i = j)) as [->|Hne].
    + rewrite lookup_insert_eq, (decide_True _ _ (list_elem_of_here j lights)).
      by case_decide.
    + rewrite lookup_insert_ne by done.
      destruct (decide (i ∈ lights)) as [Hin|Hin].
      * by rewrite decide_True by (by apply list_elem_of_further).
      * rewrite decide_False; [reflexivity|].
        rewrite elem_of_cons. by intros [?|?].
Qed.

(** One flame per light, each freshly constructed. *)
Lemma create_flames_lookup (lights : list Z) (i : Z) :
  create_flames lights !! i = if decide (i ∈ lights) then Some Flame_init else None.
Proof. unfold create_flames. by rewrite create_flames_lookup_from, lookup_empty. Qed.

(** Power-on commands leave the local variables alone. *)
Lemma power_on_frame (net : Network) (lights : list Z) (st : MainState) :
  exists st', for_lights (fun i st => inr (put net i BodyOn st)) lights st = inr st' /\
    flames st' = flames st /\ brightness st' = brightness st /\ draws st' = draws st.
Proof.
  revert st. induction lights as [|i lights IH]; intros st; cbn [for_lights and_then].
  - by exists st.
  - destruct (IH (put net i BodyOn st)) as (st' & -> & ? & ? & ?). by exists st'.
Qed.

(** When [startup] succeeds the dictionary is the freshly created one, the
    variable [brightness] is unbound and no number has been drawn. *)
Lemma startup_state (send_to_hue : bool) (lights : list Z) (fs : FileSystem)
    (net : Network) (k : nat) (st0 : MainState) :
  startup send_to_hue lights fs net k = inr st0 ->
  flames st0 = create_flames lights /\ draws st0 = k.
Proof.
  unfold startup. destruct (GetBridgeIpAndUsername _ _) as [exn|cred]; [discriminate|].
  cbn [and_then]. destruct send_to_hue.
  - match goal with |- context [for_lights ?f lights ?st] =>
      destruct (power_on_frame net lights st) as (st' & -> & ? & ? & Hd) end.
    cbn [and_then]. intros [= <-]. cbn. by split.
  - cbn [and_then]. intros [= <-]. by split.
Qed.

(** The loop over the lights in sync mode: no flame is called, every light
    is sent the value of [brightness]. *)
Lemma for_lights_sync (e : Entropy) (net : Network) (lights : list Z)
    (st : MainState) (b : Z) :
  brightness st = Some b ->
  exists st' new,
    for_lights (send_brightness e net true) lights st = inr st' /\
    flames st' = flames st /\ brightness st' = Some b /\ draws st' = draws st /\
    trace st' = trace st ++ new /\
    brightness_commands new = (fun i => (i, b)) <$> lights.
Proof.
  revert st. induction lights as [|i lights IH]; intros st Hb; cbn [for_lights].
  - exists st, []. by rewrite app_nil_r.
  - unfold send_brightness at 1. cbn [and_then]. rewrite Hb. cbn [and_then].
    destruct (IH (put net i (BodyBri b TRANSITION_MS) st) Hb)
      as (st' & new & -> & Hfl & Hbr & Hdr & Htr & Hcmd).
    eexists st', _. split; [reflexivity|]. repeat split; try done.
    + rewrite Htr. cbn [put trace]. rewrite <- app_assoc. reflexivity.
    + unfold brightness_commands in *. rewrite omap_app, Hcmd.
      by destruct (status_code (net (requests st)) =? 200).
Qed.

(** One iteration in sync mode, sending to the lights. *)
Lemma loop_body_sync (e : Entropy) (net : Network) (i0 : Z) (rest : list Z)
    (st : MainState) (self : Flame) :
  flames st !! i0 = Some self ->
  exists st' new,
    loop_body true true (i0 :: rest) e net st = inr st' /\
    flames st' = <[i0 := flame_after e (draws st) self]> (flames st) /\
    draws st' = draws_after e (draws st) self /\
    trace st' = trace st ++ new /\
    brightness_commands new
      = (fun i => (i, brightness_of e (draws st) self)) <$> (i0 :: rest).
Proof.
  intros Hself. unfold loop_body. cbn [first_light and_then].
  unfold next_brightness. rewrite Hself.
  unfold brightness_of, flame_after, draws_after.
  destruct (GetNextFlameBrightness self e (draws st)) as [[b self'] k'].
  cbn [and_then fst snd].
  match goal with |- context [for_lights _ _ ?st1] =>
    destruct (for_lights_sync e net (i0 :: rest) st1 b eq_refl)
      as (st' & new & -> & Hfl & Hbr & Hdr & Htr & Hcmd) end.
  cbn [and_then]. eexists _, (new ++ [Sleep]). split; [reflexivity|].
  cbn [emit flames draws trace]. rewrite Hfl, Hdr, Htr. cbn.
  repeat split; try done.
  - by rewrite <- app_assoc.
  - unfold brightness_commands in *. rewrite omap_app, Hcmd. cbn.
    by rewrite app_nil_r.
Qed.

(** One iteration in sync mode, printing the debug line. *)
Lemma loop_body_debug (in_sync : bool) (e : Entropy) (net : Network) (i0 : Z)
    (rest : list Z) (st : MainState) (self : Flame) :
  flames st !! i0 = Some self ->
  exists st',
    loop_body false in_sync (i0 :: rest) e net st = inr st' /\
    flames st' = <[i0 := flame_after e (draws st) self]> (flames st) /\
    draws st' = draws_after e (draws st) self.
Proof.
  intros Hself. unfold loop_body. cbn [first_light and_then].
  unfold next_brightness. rewrite Hself.
  unfold brightness_of, flame_after, draws_after.
  destruct (GetNextFlameBrightness self e (draws st)) as [[b self'] k'].
  cbn. by eexists.
Qed.

Lemma loop_succ_r (n : nat) (send_to_hue in_sync : bool) (lights : list Z)
    (e : Entropy) (net : Network) (st : MainState) :
  loop (S n) send_to_hue in_sync lights e net st
    = do! st' := loop n send_to_hue in_sync lights e net st in
      loop_body send_to_hue in_sync lights e net st'.
Proof.
  revert st. induction n as [|n IH]; intros st.
  - cbn [loop and_then]. by destruct (loop_body send_to_hue in_sync lights e net st).
  - change (loop (S (S n)) send_to_hue in_sync lights e net st)
      with (do! st1 := loop_body send_to_hue in_sync lights e net st in
            loop (S n) send_to_hue in_sync lights e net st1).
    destruct (loop_body send_to_hue in_sync lights e net st) as [exn|st1] eqn:Hbody.
    + cbn [and_then loop]. by rewrite Hbody.
    + cbn [and_then]. rewrite IH. cbn [loop]. by rewrite Hbody.
Qed.

(** In sync mode every iteration replaces the flame of the first light and
    no other entry of the dictionary. *)
Lemma loop_sync_first_only (send_to_hue : bool) (e : Entropy) (net : Network)
    (i0 : Z) (rest : list Z) (n : nat) (st : MainState) (self : Flame) :
  flames st !! i0 = Some self ->
  exists st' self',
    loop n send_to_hue true (i0 :: rest) e net st = inr st' /\
    flames st' = <[i0 := self']> (flames st).
Proof.
  revert st self. induction n as [|n IH]; intros st self Hself.
  - exists st, self. split; [reflexivity|]. by rewrite insert_id.
  - cbn [loop].
    assert (Hbody : exists st1,
      loop_body send_to_hue true (i0 :: rest) e net st = inr st1 /\
      flames st1 = <[i0 := flame_after e (draws st) self]> (flames st)).
    { destruct send_to_hue.
      - destruct (loop_body_sync e net i0 rest st self Hself)
          as (st1 & new & ? & ? & _). by exists st1.
      - destruct (loop_body_debug true e net i0 rest st self Hself)
          as (st1 & ? & ? & _). by exists st1. }
    destruct Hbody as (st1 & -> & Hfl). cbn [and_then].
    destruct (IH st1 (flame_after e (draws st) self)) as (st' & self' & -> & Hfl').
    { rewrite Hfl. apply lookup_insert_eq. }
    exists st', self'. split; [reflexivity|].
    by rewrite Hfl', Hfl, insert_insert_eq.
Qed.

(** C8. In sync mode, on every iteration of the loop (the one after any
    number [n] of iterations), [GetNextFlameBrightness] is called once, on
    the flame of the first light, and the brightness commands of the
    iteration are one per light, in order, all carrying the value that call
    returned. *)
Theorem sync_mode_one_brightness_per_tick (i0 : Z) (rest : list Z)
    (fs : FileSystem) (e : Entropy) (net : Network) (k n : nat) (st0 : MainState) :
  startup true (i0 :: rest) fs net k = inr st0 ->
  exists st self st' new,
    loop n true true (i0 :: rest) e net st0 = inr st /\
    flames st !! i0 = Some self /\
    loop_body true true (i0 :: rest) e net st = inr st' /\
    loop (S n) true true (i0 :: rest) e net st0 = inr st' /\
    flames st' = <[i0 := flame_after e (draws st) self]> (flames st) /\
    draws st' = draws_after e (draws st) self /\
    trace st' = trace st ++ new /\
    brightness_commands new
      = (fun i => (i, brightness_of e (draws st) self)) <$> (i0 :: rest).
Proof.
  intros Hstart. apply startup_state in Hstart as [Hfl0 _].
  assert (Hinit : flames st0 !! i0 = Some Flame_init).
  { rewrite Hfl0, create_flames_lookup. apply decide_True. left. }
  destruct (loop_sync_first_only true e net i0 rest n st0 _ Hinit)
    as (st & self & Hloop & Hfl).
  assert (Hself : flames st !! i0 = Some self)
    by (rewrite Hfl; apply lookup_insert_eq).
  destruct (loop_body_sync e net i0 rest st self Hself)
    as (st' & new & Hbody & Hfl' & Hdr & Htr & Hcmd).
  exists st, self, st', new. repeat split; try done.
  by rewrite loop_succ_r, Hloop.
Qed.

Lemma sync_mode_one_brightness_per_tick_witness :
  exists st self st' new,
    loop 3 SEND_TO_HUE IN_SYNC LIGHTS scenario_A_stub demo_net demo_state = inr st /\
    flames st !! 2 = Some self /\
    loop_body SEND_TO_HUE IN_SYNC LIGHTS scenario_A_stub demo_net st = inr st' /\
    loop 4 SEND_TO_HUE IN_SYNC LIGHTS scenario_A_stub demo_net demo_state = inr st' /\
    flames st' = <[2 := flame_after scenario_A_stub (draws st) self]> (flames st) /\
    draws st' = draws_after scenario_A_stub (draws st) self /\
    trace st' = trace st ++ new /\
    brightness_commands new
      = (fun i => (i, brightness_of scenario_A_stub (draws st) self)) <$> LIGHTS.
Proof.
  apply (sync_mode_one_brightness_per_tick 2 [4] demo_fs scenario_A_stub demo_net 0 3
           demo_state).
  reflexivity.
Defined.

(** C10. In sync mode [main] creates one fresh flame per light, and after
    any number of iterations the dictionary differs from the one created at
    most at the first light: the flame of every other light is still as
    constructed. *)
Theorem sync_mode_touches_first_flame_only (send_to_hue : bool) (i0 : Z)
    (rest : list Z) (fs : FileSystem) (e : Entropy) (net : Network) (k n : nat)
    (st0 : MainState) :
  startup send_to_hue (i0 :: rest) fs net k = inr st0 ->
  (forall i, flames st0 !! i
             = if decide (i ∈ i0 :: rest) then Some Flame_init else None) /\
  exists st self,
    main_with send_to_hue true (i0 :: rest) fs e net k n = inr st /\
    flames st = <[i0 := self]> (flames st0) /\
    forall i, i ∈ i0 :: rest -> i <> i0 -> flames st !! i = Some Flame_init.
Proof.
  intros Hstart. pose proof (startup_state _ _ _ _ _ _ Hstart) as [Hfl0 _].
  assert (Hcreated : forall i, flames st0 !! i
            = if decide (i ∈ i0 :: rest) then Some Flame_init else None)
    by (intros i; rewrite Hfl0; apply create_flames_lookup).
  split; [exact Hcreated|].
  assert (Hinit : flames st0 !! i0 = Some Flame_init).
  { rewrite Hcreated. apply decide_True. left. }
  destruct (loop_sync_first_only send_to_hue e net i0 rest n st0 _ Hinit)
    as (st & self & Hloop & Hfl).
  exists st, self. unfold main_with. rewrite Hstart. cbn [and_then].
  repeat split; try done.
  intros i Hin Hne. rewrite Hfl, lookup_insert_ne by done.
  rewrite Hcreated. by apply decide_True.
Qed.

Lemma sync_mode_touches_first_flame_only_witness :
  (forall i, flames demo_state !! i
             = if decide (i ∈ LIGHTS) then Some Flame_init else None) /\
  exists st self,
    main demo_fs scenario_A_stub demo_net 0 3 = inr st /\
    flames st = <[2 := self]> (flames demo_state) /\
    forall i, i ∈ LIGHTS -> i <> 2 -> flames st !! i = Some Flame_init.
Proof.
  apply (sync_mode_touches_first_flame_only SEND_TO_HUE 2 [4] demo_fs scenario_A_stub
           demo_net 0 3 demo_state).
  reflexivity.
Defined.

(** * Further properties of the flame *)

(** The filter keeps [flameprime] on the grid of [FLAME_AGILITY] steps
    above [MIN_BRIGHTNESS]. *)
Lemma inertia_grid (self : Flame) :
  MIN_BRIGHTNESS <= flameprime self <= MAX_BRIGHTNESS ->
  (flameprime self - MIN_BRIGHTNESS) mod FLAME_AGILITY = 0 ->
  (flameprime (inertia self) - MIN_BRIGHTNESS) mod FLAME_AGILITY = 0.
Proof.
  intros Hp Hgrid. apply Z.mod_divide in Hgrid; [|by unfold_consts].
  destruct Hgrid as [j Hj]. apply Z.mod_divide; [by unfold_consts|].
  unfold inertia. split_tests; unfold_consts.
  - destruct (Z.min_spec (flameprime self + 20) 220) as [[_ ->]|[_ ->]];
      [exists (j + 1); lia | exists 6; lia].
  - destruct (Z.max_spec (flameprime self - 20) 100) as [[_ ->]|[_ ->]];
      [exists 0; lia | exists (j - 1); lia].
Qed.

Lemma reachable_grid (self : Flame) :
  reachable self -> (flameprime self - MIN_BRIGHTNESS) mod FLAME_AGILITY = 0.
Proof.
  induction 1 as [|e k self He Hr IH]; [reflexivity|].
  rewrite flame_after_inertia. apply reachable_inv in Hr as [_ Hp _].
  apply inertia_grid; by rewrite before_inertia_flameprime.
Qed.

Lemma grid_levels (v : Z) :
  MIN_BRIGHTNESS <= v <= MAX_BRIGHTNESS ->
  (v - MIN_BRIGHTNESS) mod FLAME_AGILITY = 0 ->
  v ∈ brightness_levels.
Proof.
  intros Hv Hgrid. apply Z.mod_divide in Hgrid; [|by unfold_consts].
  destruct Hgrid as [j Hj]. unfold_consts. unfold brightness_levels.
  assert (Hj' : j = 0 \/ j = 1 \/ j = 2 \/ j = 3 \/ j = 4 \/ j = 5 \/ j = 6) by lia.
  assert (Hv' : v = 100 + j * 20) by lia.
  rewrite Hv'. rewrite !elem_of_cons.
  destruct Hj' as [->|[->|[->|[->|[->|[->| ->]]]]]]; cbn; tauto.
Qed.

(** The flame the filter sees is within the brightness bounds. *)
Lemma before_inertia_flame (e : Entropy) (k : nat) (self : Flame) :
  in_range e -> MIN_BRIGHTNESS <= flame self <= MAX_BRIGHTNESS ->
  MIN_BRIGHTNESS <= flame (fst (before_inertia self e k)) <= MAX_BRIGHTNESS.
Proof.
  intros He Hf.
  assert (Hk : forall j, MIN_BRIGHTNESS <= e j MIN_BRIGHTNESS MAX_BRIGHTNESS <= MAX_BRIGHTNESS)
    by (intros j; apply He; unfold_consts; lia).
  pose proof (Hk (S (S k))). pose proof (Hk (S (S (S k)))).
  unfold_call. split_tests; unfold_consts; lia.
Qed.

(** X1. In every reachable state the raw brightness [flame] lies between
    [MIN_BRIGHTNESS] and [MAX_BRIGHTNESS], and the three fields lie in
    [0, 255], the range the comment of [__init__] asks for. *)
Theorem fields_in_byte_range (self : Flame) :
  reachable self ->
  MIN_BRIGHTNESS <= flame self <= MAX_BRIGHTNESS /\
  0 <= flame self <= 255 /\ 0 <= flameprime self <= 255 /\ 0 <= wind self <= 255.
Proof.
  intros Hr. apply reachable_inv in Hr as [Hf Hp Hw]. unfold_consts. lia.
Qed.

Lemma fields_in_byte_range_witness :
  let self := flame_after lowest 0 Flame_init in
  MIN_BRIGHTNESS <= flame self <= MAX_BRIGHTNESS /\
  0 <= flame self <= 255 /\ 0 <= flameprime self <= 255 /\ 0 <= wind self <= 255.
Proof.
  apply (fields_in_byte_range (flame_after lowest 0 Flame_init)).
  apply reachable_call; [|apply reachable_init].
  intros k lo hi Hle. unfold lowest. lia.
Defined.

(** X2. The brightness returned is always one of the seven levels 100,
    120, ..., 220: the filter moves in steps of [FLAME_AGILITY] between two
    bounds that are themselves on that grid. *)
Theorem brightness_on_levels (e : Entropy) (k : nat) (self : Flame) :
  in_range e -> reachable self -> brightness_of e k self ∈ brightness_levels.
Proof.
  intros He Hr. rewrite brightness_is_flameprime.
  pose proof (reachable_call e k self He Hr) as Hr'.
  apply grid_levels; [|by apply reachable_grid].
  by apply reachable_inv in Hr' as [_ Hp _].
Qed.

Lemma brightness_on_levels_witness :
  brightness_of lowest 0 Flame_init ∈ brightness_levels.
Proof.
  apply (brightness_on_levels lowest 0 Flame_init).
  - intros k lo hi Hle. unfold lowest. lia.
  - apply reachable_init.
Defined.

(** X3. The output never rests except on the floor: a call moves
    [flameprime] by exactly [FLAME_AGILITY], up when the flame seen by the
    filter is above it and down otherwise, and leaves it unchanged only when
    both [flameprime] and that flame are at [MIN_BRIGHTNESS]. *)
Theorem flicker_step (e : Entropy) (k : nat) (self : Flame) :
  in_range e -> reachable self ->
  let s4 := fst (before_inertia self e k) in
  let p := flameprime self in
  let p' := flameprime (flame_after e k self) in
  (flame s4 > p -> p' = p + FLAME_AGILITY) /\
  (flame s4 <= p -> p <> MIN_BRIGHTNESS -> p' = p - FLAME_AGILITY) /\
  (p' = p <-> p = MIN_BRIGHTNESS /\ flame s4 = MIN_BRIGHTNESS).
Proof.
  intros He Hr s4 p p'.
  pose proof (reachable_grid _ Hr) as Hgrid.
  apply reachable_inv in Hr as [Hf Hp _].
  pose proof (grid_levels _ Hp Hgrid) as Hlev.
  pose proof (before_inertia_flame e k self He Hf) as Hf4.
  pose proof (before_inertia_flameprime e k self) as Hsame.
  subst p p'. rewrite flame_after_inertia. fold s4 in Hf4, Hsame |- *.
  rewrite <- Hsame in Hlev |- *. clear Hsame Hgrid Hp Hf.
  unfold brightness_levels in Hlev. rewrite !elem_of_cons, elem_of_nil in Hlev.
  unfold inertia. destruct (Z.gtb_spec (flame s4) (flameprime s4));
    cbn [flameprime set_flameprime]; unfold_consts; lia.
Qed.

Lemma flicker_step_witness :
  let s4 := fst (before_inertia Flame_init lowest 0%nat) in
  let p := flameprime Flame_init in
  let p' := flameprime (flame_after lowest 0 Flame_init) in
  (flame s4 > p -> p' = p + FLAME_AGILITY) /\
  (flame s4 <= p -> p <> MIN_BRIGHTNESS -> p' = p - FLAME_AGILITY) /\
  (p' = p <-> p = MIN_BRIGHTNESS /\ flame s4 = MIN_BRIGHTNESS).
Proof.
  apply (flicker_step lowest 0 Flame_init).
  - intros k lo hi Hle. unfold lowest. lia.
  - apply reachable_init.
Defined.

(** X4. A call consumes two, three or four draws of the random source, and
    exactly two when neither the gust nor the knock happens. *)
Theorem draws_per_call (e : Entropy) (k : nat) (self : Flame) :
  (k + 2 <= draws_after e k self <= k + 4)%nat /\
  (draws_after e k self = (k + 2)%nat <-> calm_call e k self).
Proof.
  split; [apply draws_after_bounds|].
  rewrite calm_call_two_draws. by replace (k + 2)%nat with (S (S k)) by lia.
Qed.

(** Without a gust the wind of a call is the settled wind. *)
Lemma gustless_wind (e : Entropy) (k : nat) (self : Flame) :
  WIND_VARIABILITY <= e k 0 1000 ->
  wind (flame_after e k self) = wind (settle self).
Proof.
  intros Hg. unfold_call.
  destruct (Z.ltb_spec (e k 0 1000) WIND_VARIABILITY); [lia|].
  split_tests; reflexivity.
Qed.

(** X5. As long as no gust occurs the wind settles: after [n] calls a wind
    above [WIND_BASELINE] has gone down by [n], but not below the baseline,
    and a wind at or below the baseline has not moved. *)
Theorem wind_settles (e : Entropy) (k n : nat) (self : Flame) :
  gustless_run e k self n ->
  wind (snd (fst (ticks n self e k)))
    = if wind self <=? WIND_BASELINE then wind self
      else Z.max WIND_BASELINE (wind self - Z.of_nat n).
Proof.
  revert k self. induction n as [|n IH]; intros k self Hrun.
  - cbn [ticks ret fst snd]. destruct (Z.leb_spec (wind self) WIND_BASELINE); lia.
  - destruct Hrun as [Hg Hrun]. rewrite ticks_succ. cbn zeta. cbn [fst snd].
    rewrite (IH _ _ Hrun), (gustless_wind e k self Hg).
    unfold settle. destruct (Z.gtb_spec (wind self) WIND_BASELINE);
      cbn [wind set_wind];
      repeat match goal with |- context [?a <=? ?b] => destruct (Z.leb_spec a b) end;
      lia.
Qed.

Lemma wind_settles_witness :
  wind (snd (fst (ticks 3 {| flame := 150; flameprime := 160; wind := 7 |} highest 0%nat)))
    = if 7 <=? WIND_BASELINE then 7 else Z.max WIND_BASELINE (7 - Z.of_nat 3).
Proof.
  apply (wind_settles highest 0 3 {| flame := 150; flameprime := 160; wind := 7 |}).
  vm_compute. repeat split; discriminate.
Defined.

(** * Further properties of the dispatch loop *)

Lemma requests_of_app (evs1 evs2 : list Event) :
  requests_of (evs1 ++ evs2) = requests_of evs1 ++ requests_of evs2.
Proof. apply omap_app. Qed.

(** A [put] adds one request, whatever the bridge answers. *)
Lemma requests_of_put (net : Network) (i : Z) (body : Body) (st : MainState) :
  requests_of (trace (put net i body st))
    = requests_of (trace st)
      ++ [{| req_ip := bridge_ip st; req_username := username st;
             req_light := i; req_body := body |}].
Proof.
  cbn [put trace]. rewrite requests_of_app. f_equal.
  by destruct (status_code (net (requests st)) =? 200).
Qed.

Lemma next_brightness_some (e : Entropy) (i : Z) (st : MainState) (self : Flame) :
  flames st !! i = Some self ->
  next_brightness e i st
    = inr {| bridge_ip := bridge_ip st; username := username st;
             flames := <[i := flame_after e (draws st) self]> (flames st);
             brightness := Some (brightness_of e (draws st) self);
             draws := draws_after e (draws st) self;
             requests := requests st; trace := trace st |}.
Proof.
  intros Hself. unfold next_brightness, brightness_of, flame_after, draws_after.
  rewrite Hself. by destruct (GetNextFlameBrightness self e (draws st)) as [[b self'] k'].
Qed.

Lemma next_brightness_none (e : Entropy) (i : Z) (st : MainState) :
  flames st !! i = None -> next_brightness e i st = inl KeyError.
Proof. intros Hnone. unfold next_brightness. by rewrite Hnone. Qed.

Section LoopInvariant.

Variables (e : Entropy) (net : Network) (lights : list Z) (ip user : string).
Variables (P : Flame -> Prop) (Q : Z -> Prop).
Hypothesis call_keeps :
  forall k self, P self -> P (flame_after e k self) /\ Q (brightness_of e k self).

Local Abbreviation Inv := (loop_inv lights ip user P Q).

Lemma next_brightness_inv (i : Z) (st : MainState) :
  i ∈ lights -> Inv st ->
  exists st', next_brightness e i st = inr st' /\ Inv st' /\ is_Some (brightness st').
Proof.
  intros Hi [Hkeys Hfl Hbr Hip Huser Hreq].
  destruct (Hkeys i Hi) as [self Hself].
  rewrite (next_brightness_some e i st self Hself).
  destruct (call_keeps (draws st) self (Hfl _ _ Hself)) as [HP HQ].
  eexists. split; [reflexivity|]. split; [|by eexists].
  split; cbn [flames brightness bridge_ip username trace]; try done.
  - intros j Hj. destruct (decide (i = j)) as [->|Hne].
    + rewrite lookup_insert_eq. by eexists.
    + rewrite lookup_insert_ne by done. by apply Hkeys.
  - intros j s. destruct (decide (i = j)) as [->|Hne].
    + rewrite lookup_insert_eq. by intros [= <-].
    + rewrite lookup_insert_ne by done. apply Hfl.
  - by intros b [= <-].
Qed.

Lemma put_inv (i : Z) (body : Body) (st : MainState) :
  i ∈ lights ->
  match body with BodyOn => True | BodyBri b t => Q b /\ t = TRANSITION_MS end ->
  Inv st -> Inv (put net i body st).
Proof.
  intros Hi Hbody [Hkeys Hfl Hbr Hip Huser Hreq].
  split; try done.
  intros r. rewrite requests_of_put, elem_of_app, list_elem_of_singleton.
  intros [Hr | ->]; [by apply Hreq|].
  by repeat split.
Qed.

Lemma emit_inv (evs : list Event) (st : MainState) :
  requests_of evs = [] -> Inv st -> Inv (emit evs st).
Proof.
  intros Hevs [Hkeys Hfl Hbr Hip Huser Hreq]. split; try done.
  intros r. cbn [emit trace]. rewrite requests_of_app, Hevs, app_nil_r. apply Hreq.
Qed.

Lemma send_brightness_inv (in_sync : bool) (i : Z) (st : MainState) :
  i ∈ lights -> Inv st -> (in_sync = true -> is_Some (brightness st)) ->
  exists st', send_brightness e net in_sync i st = inr st' /\ Inv st' /\
              is_Some (brightness st').
Proof.
  intros Hi Hinv Hbound. unfold send_brightness.
  assert (Hsend : forall st1, Inv st1 -> is_Some (brightness st1) ->
    exists st',
      match brightness st1 with
      | None => inl NameError
      | Some b => inr (put net i (BodyBri b TRANSITION_MS) st1)
      end = inr st' /\ Inv st' /\ is_Some (brightness st')).
  { intros st1 Hinv1 [b Hb]. rewrite Hb.
    eexists. split; [reflexivity|]. split; [|by exists b].
    apply put_inv; [done| |done]. split; [|reflexivity].
    by apply (inv_brightness _ _ _ _ _ _ Hinv1). }
  destruct in_sync; cbn [and_then].
  - by apply Hsend; [|apply Hbound].
  - destruct (next_brightness_inv i st Hi Hinv) as (st1 & -> & Hinv1 & Hb1).
    cbn [and_then]. by apply Hsend.
Qed.

Lemma for_lights_inv (in_sync : bool) (ls : list Z) (st : MainState) :
  (forall i, i ∈ ls -> i ∈ lights) -> Inv st ->
  (in_sync = true -> is_Some (brightness st)) ->
  exists st', for_lights (send_brightness e net in_sync) ls st = inr st' /\ Inv st'.
Proof.
  revert st. induction ls as [|i ls IH]; intros st Hsub Hinv Hbound; cbn [for_lights].
  - by exists st.
  - destruct (send_brightness_inv in_sync i st) as (st1 & -> & Hinv1 & Hb1);
      [apply Hsub; left | done | done |].
    cbn [and_then]. apply IH; [|done|done].
    intros j Hj. apply Hsub. by right.
Qed.

(** With at least one light an iteration never raises, in any mode. *)
Lemma loop_body_inv (send_to_hue in_sync : bool) (i0 : Z) (rest : list Z)
    (st : MainState) :
  lights = i0 :: rest -> Inv st ->
  exists st', loop_body send_to_hue in_sync lights e net st = inr st' /\ Inv st'.
Proof.
  intros Hlights Hinv. unfold loop_body.
  assert (Hi0 : i0 ∈ lights) by (rewrite Hlights; left).
  assert (Hfirst : first_light lights = inr i0) by (by rewrite Hlights).
  rewrite !Hfirst. cbn [and_then]. destruct send_to_hue.
  - assert (Hfor : forall st1, Inv st1 -> (in_sync = true -> is_Some (brightness st1)) ->
      exists st',
        (do! st2 := for_lights (send_brightness e net in_sync) lights st1 in
         inr (emit [Sleep] st2)) = inr st' /\ Inv st').
    { intros st1 Hinv1 Hb1.
      destruct (for_lights_inv in_sync lights st1) as (st2 & -> & Hinv2); try done.
      cbn [and_then]. eexists. split; [reflexivity|]. by apply emit_inv. }
    destruct in_sync; cbn [and_then].
    + destruct (next_brightness_inv i0 st Hi0 Hinv) as (st1 & -> & Hinv1 & Hb1).
      cbn [and_then]. by apply Hfor.
    + by apply Hfor.
  - destruct (next_brightness_inv i0 st Hi0 Hinv) as (st1 & -> & Hinv1 & [b Hb]).
    cbn [and_then]. rewrite Hb. cbn [and_then].
    eexists. split; [reflexivity|]. by repeat apply emit_inv.
Qed.

Lemma loop_inv_run (send_to_hue in_sync : bool) (i0 : Z) (rest : list Z)
    (n : nat) (st : MainState) :
  lights = i0 :: rest -> Inv st ->
  exists st', loop n send_to_hue in_sync lights e net st = inr st' /\ Inv st'.
Proof.
  intros Hlights. revert st. induction n as [|n IH]; intros st Hinv; cbn [loop].
  - by exists st.
  - destruct (loop_body_inv send_to_hue in_sync i0 rest st Hlights Hinv)
      as (st1 & -> & Hinv1).
    cbn [and_then]. by apply IH.
Qed.

End LoopInvariant.

(** The power-on loop: one request per light, in order; nothing else
    changes. *)
Lemma power_on_requests (net : Network) (ls : list Z) (st : MainState) :
  exists st',
    for_lights (fun i st => inr (put net i BodyOn st)) ls st = inr st' /\
    flames st' = flames st /\ brightness st' = brightness st /\
    draws st' = draws st /\ bridge_ip st' = bridge_ip st /\
    username st' = username st /\
    requests st' = (requests st + length ls)%nat /\
    requests_of (trace st')
      = requests_of (trace st)
        ++ ((fun i => {| req_ip := bridge_ip st; req_username := username st;
                         req_light := i; req_body := BodyOn |}) <$> ls).
Proof.
  revert st. induction ls as [|i ls IH]; intros st; cbn [for_lights and_then].
  - exists st. rewrite app_nil_r. repeat split; try reflexivity; cbn; lia.
  - destruct (IH (put net i BodyOn st))
      as (st' & -> & Hfl & Hbr & Hdr & Hip & Huser & Hreq & Htr).
    exists st'. split; [reflexivity|]. rewrite Hfl, Hbr, Hdr, Hip, Huser, Hreq, Htr.
    rewrite requests_of_put. cbn [put flames brightness draws bridge_ip username
      requests length fmap list_fmap].
    rewrite <- app_assoc. repeat split; try reflexivity; lia.
Qed.

(** [startup] fails exactly as the credential loader does, and otherwise
    leaves one fresh flame per light and the power-on requests. *)
Lemma startup_result (send_to_hue : bool) (lights : list Z) (fs : FileSystem)
    (net : Network) (k : nat) :
  match GetBridgeIpAndUsername fs "./bridge_ip_and_username.txt" with
  | inl exn => startup send_to_hue lights fs net k = inl exn
  | inr (ip, user) =>
      exists st0,
        startup send_to_hue lights fs net k = inr st0 /\
        flames st0 = create_flames lights /\ brightness st0 = None /\
        draws st0 = k /\ bridge_ip st0 = ip /\ username st0 = user /\
        requests st0 = (if send_to_hue then length lights else O) /\
        requests_of (trace st0)
          = if send_to_hue
            then (fun i => {| req_ip := ip; req_username := user;
                              req_light := i; req_body := BodyOn |}) <$> lights
            else []
  end.
Proof.
  unfold startup.
  destruct (GetBridgeIpAndUsername fs _) as [exn|[ip user]]; [reflexivity|].
  cbn [and_then fst snd]. destruct send_to_hue.
  - match goal with |- context [for_lights _ lights ?st] =>
      destruct (power_on_requests net lights st)
        as (st' & -> & Hfl & Hbr & Hdr & Hip & Huser & Hreq & Htr) end.
    cbn [and_then]. eexists. split; [reflexivity|].
    cbn [flames brightness draws bridge_ip username requests trace] in *.
    by rewrite Hbr, Hdr, Hip, Huser, Hreq, Htr.
  - cbn [and_then]. eexists. split; [reflexivity|]. by cbn.
Qed.

Lemma create_flames_init (lights : list Z) (i : Z) (self : Flame) :
  create_flames lights !! i = Some self -> i ∈ lights /\ self = Flame_init.
Proof.
  rewrite create_flames_lookup. case_decide; [|discriminate]. by intros [= <-].
Qed.

(** The state after a successful [startup] satisfies the loop invariant. *)
Lemma startup_inv (send_to_hue : bool) (lights : list Z) (fs : FileSystem)
    (net : Network) (k : nat) (ip user : string) (P : Flame -> Prop) (Q : Z -> Prop) :
  GetBridgeIpAndUsername fs "./bridge_ip_and_username.txt" = inr (ip, user) ->
  P Flame_init ->
  exists st0, startup send_to_hue lights fs net k = inr st0 /\
              loop_inv lights ip user P Q st0.
Proof.
  intros Hcred HP. pose proof (startup_result send_to_hue lights fs net k) as Hres.
  rewrite Hcred in Hres.
  destruct Hres as (st0 & Hstart & Hfl & Hbr & Hdr & Hip & Huser & Hreq & Htr).
  exists st0. split; [done|]. split; try done.
  - intros i Hi. rewrite Hfl, create_flames_lookup, decide_True by done. by eexists.
  - intros i self. rewrite Hfl. intros [_ ->]%create_flames_init. done.
  - intros b. by rewrite Hbr.
  - intros r. rewrite Htr. destruct send_to_hue; [|by intros ?%elem_of_nil].
    intros (i & -> & Hi)%list_elem_of_fmap. by repeat split.
Qed.



(** X7. Every request [main] makes goes to the bridge address and under
    the user name read from the credential file, and is for one of the
    configured lights. *)
Theorem main_requests_addressed (send_to_hue in_sync : bool) (i0 : Z)
    (rest : list Z) (fs : FileSystem) (e : Entropy) (net : Network) (k n : nat)
    (ip user : string) :
  GetBridgeIpAndUsername fs "./bridge_ip_and_username.txt" = inr (ip, user) ->
  exists st,
    main_with send_to_hue in_sync (i0 :: rest) fs e net k n = inr st /\
    forall r, r ∈ requests_of (trace st) ->
      req_ip r = ip /\ req_username r = user /\ req_light r ∈ i0 :: rest.
Proof.
  intros Hcred.
  destruct (startup_inv send_to_hue (i0 :: rest) fs net k ip user
              (fun _ => True) (fun _ => True) Hcred I) as (st0 & Hstart & Hinv0).
  destruct (loop_inv_run e net (i0 :: rest) ip user (fun _ => True) (fun _ => True))
    with (send_to_hue := send_to_hue) (in_sync := in_sync) (i0 := i0)
         (rest := rest) (n := n) (st := st0) as (st & Hloop & Hinv); try done.
  exists st. unfold main_with. rewrite Hstart. cbn [and_then]. split; [done|].
  intros r Hr.
  destruct (inv_requests _ _ _ _ _ _ Hinv r Hr) as (? & ? & ? & _). done.
Qed.

Lemma main_requests_addressed_witness :
  exists st,
    main_with true false (2 :: [4]) demo_fs highest demo_net 0 2 = inr st /\
    forall r, r ∈ requests_of (trace st) ->
      req_ip r = "192.168.1.42"%string /\
      req_username r = "ab8d8fbd8d8d8bdbd88d8bd80898"%string /\
      req_light r ∈ 2 :: [4].
Proof.
  apply (main_requests_addressed true false 2 [4] demo_fs highest demo_net 0 2
           "192.168.1.42" "ab8d8fbd8d8d8bdbd88d8bd80898").
  reflexivity.
Defined.


(** What a successful [next_brightness] leaves alone. *)
Lemma next_brightness_frame (e : Entropy) (i : Z) (st st' : MainState) :
  next_brightness e i st = inr st' ->
  trace st' = trace st /\ requests st' = requests st /\
  bridge_ip st' = bridge_ip st /\ username st' = username st /\
  is_Some (brightness st').
Proof.
  destruct (flames st !! i) as [self|] eqn:Hself.
  - rewrite (next_brightness_some e i st self Hself). intros [= <-]. cbn.
    repeat split. by eexists.
  - by rewrite (next_brightness_none e i st Hself).
Qed.

(** A successful pass over the lights makes one request per light, in the
    order of the list. *)
Lemma for_lights_schedule (e : Entropy) (net : Network) (in_sync : bool)
    (ls : list Z) (st st' : MainState) :
  for_lights (send_brightness e net in_sync) ls st = inr st' ->
  req_light <$> requests_of (trace st')
    = (req_light <$> requests_of (trace st)) ++ ls /\
  requests st' = (requests st + length ls)%nat.
Proof.
  revert st. induction ls as [|i ls IH]; intros st; cbn [for_lights].
  - intros [= <-]. rewrite app_nil_r. split; [reflexivity | cbn; lia].
  - destruct (send_brightness e net in_sync i st) as [exn|st1] eqn:Hsend;
      [discriminate|].
    cbn [and_then]. intros Hrest. destruct (IH _ Hrest) as [Htr Hreq].
    assert (Hone : req_light <$> requests_of (trace st1)
                   = (req_light <$> requests_of (trace st)) ++ [i] /\
                   requests st1 = S (requests st)).
    { unfold send_brightness in Hsend.
      assert (Hput : forall st0, trace st0 = trace st -> requests st0 = requests st ->
        match brightness st0 with
        | None => inl NameError
        | Some b => inr (put net i (BodyBri b TRANSITION_MS) st0)
        end = inr st1 ->
        req_light <$> requests_of (trace st1)
          = (req_light <$> requests_of (trace st)) ++ [i] /\
        requests st1 = S (requests st)).
      { intros st0 Htr0 Hreq0. destruct (brightness st0) as [b|]; [|discriminate].
        intros [= <-]. rewrite requests_of_put, fmap_app, Htr0. cbn. by rewrite Hreq0. }
      destruct in_sync; cbn [and_then] in Hsend.
      - by apply (Hput st).
      - destruct (next_brightness e i st) as [exn|st0] eqn:Hnext; [discriminate|].
        cbn [and_then] in Hsend.
        destruct (next_brightness_frame e i st st0 Hnext) as (? & ? & _).
        by apply (Hput st0). }
    destruct Hone as [Htr1 Hreq1]. rewrite Htr, Htr1, Hreq, Hreq1, <- app_assoc.
    split; [reflexivity | cbn; lia].
Qed.

Lemma requests_of_emit_sleep (st : MainState) :
  requests_of (trace (emit [Sleep] st)) = requests_of (trace st).
Proof. cbn [emit trace]. by rewrite requests_of_app, app_nil_r. Qed.

Lemma loop_body_schedule (e : Entropy) (net : Network) (in_sync : bool)
    (lights : list Z) (st st' : MainState) :
  loop_body true in_sync lights e net st = inr st' ->
  req_light <$> requests_of (trace st')
    = (req_light <$> requests_of (trace st)) ++ lights /\
  requests st' = (requests st + length lights)%nat.
Proof.
  unfold loop_body.
  assert (Hfor : forall st1, trace st1 = trace st -> requests st1 = requests st ->
    (do! st2 := for_lights (send_brightness e net in_sync) lights st1 in
     inr (emit [Sleep] st2)) = inr st' ->
    req_light <$> requests_of (trace st')
      = (req_light <$> requests_of (trace st)) ++ lights /\
    requests st' = (requests st + length lights)%nat).
  { intros st1 Htr1 Hreq1.
    destruct (for_lights _ lights st1) as [exn|st2] eqn:Hfor; [discriminate|].
    cbn [and_then]. intros [= <-].
    destruct (for_lights_schedule e net in_sync lights st1 st2 Hfor) as [Htr Hreq].
    rewrite requests_of_emit_sleep, Htr, Htr1. cbn [emit requests].
    by rewrite Hreq, Hreq1. }
  destruct in_sync; cbn [and_then].
  - destruct (first_light lights) as [exn|i0]; [discriminate|]. cbn [and_then].
    destruct (next_brightness e i0 st) as [exn|st1] eqn:Hnext; [discriminate|].
    cbn [and_then]. destruct (next_brightness_frame e i0 st st1 Hnext) as (? & ? & _).
    by apply Hfor.
  - by apply Hfor.
Qed.

Lemma loop_schedule (e : Entropy) (net : Network) (in_sync : bool)
    (lights : list Z) (n : nat) (st st' : MainState) :
  loop n true in_sync lights e net st = inr st' ->
  req_light <$> requests_of (trace st')
    = (req_light <$> requests_of (trace st)) ++ mjoin (replicate n lights) /\
  requests st' = (requests st + n * length lights)%nat.
Proof.
  revert st. induction n as [|n IH]; intros st; cbn [loop].
  - intros [= <-]. cbn. rewrite app_nil_r. split; [reflexivity | lia].
  - destruct (loop_body true in_sync lights e net st) as [exn|st1] eqn:Hbody;
      [discriminate|].
    cbn [and_then]. intros Hrest.
    destruct (loop_body_schedule e net in_sync lights st st1 Hbody) as [Htr1 Hreq1].
    destruct (IH _ Hrest) as [Htr Hreq].
    rewrite Htr, Htr1, Hreq, Hreq1, <- app_assoc.
    split; [reflexivity | lia].
Qed.

(** X9. When sending to the lights, [main] addresses every light once at
    startup and once per iteration, always in the order of [LIGHTS] and
    whatever the bridge answers: after [n] iterations it has made
    [(n + 1) * len(LIGHTS)] requests. *)
Theorem main_request_schedule (in_sync : bool) (i0 : Z) (rest : list Z)
    (fs : FileSystem) (e : Entropy) (net : Network) (k n : nat) (ip user : string) :
  GetBridgeIpAndUsername fs "./bridge_ip_and_username.txt" = inr (ip, user) ->
  exists st,
    main_with true in_sync (i0 :: rest) fs e net k n = inr st /\
    req_light <$> requests_of (trace st)
      = (i0 :: rest) ++ mjoin (replicate n (i0 :: rest)) /\
    requests st = ((n + 1) * length (i0 :: rest))%nat.
Proof.
  intros Hcred.
  destruct (startup_inv true (i0 :: rest) fs net k ip user
              (fun _ => True) (fun _ => True) Hcred I) as (st0 & Hstart & Hinv0).
  destruct (loop_inv_run e net (i0 :: rest) ip user (fun _ => True) (fun _ => True))
    with (send_to_hue := true) (in_sync := in_sync) (i0 := i0)
         (rest := rest) (n := n) (st := st0) as (st & Hloop & _); try done.
  pose proof (startup_result true (i0 :: rest) fs net k) as Hres.
  rewrite Hcred, Hstart in Hres.
  destruct Hres as (st0' & [= <-] & _ & _ & _ & _ & _ & Hreq0 & Htr0).
  destruct (loop_schedule e net in_sync (i0 :: rest) n st0 st Hloop) as [Htr Hreq].
  exists st. unfold main_with. rewrite Hstart. cbn [and_then]. split; [done|].
  rewrite Htr, Hreq, Htr0, Hreq0, <- list_fmap_compose. split; [|lia].
  f_equal. by rewrite <- (list_fmap_id (i0 :: rest)) at 2.
Qed.

Lemma main_request_schedule_witness :
  exists st,
    main_with true false (2 :: [4]) demo_fs lowest failing_net 0 2 = inr st /\
    req_light <$> requests_of (trace st)
      = (2 :: [4]) ++ mjoin (replicate 2 (2 :: [4])) /\
    requests st = ((2 + 1) * length (2 :: [4]))%nat.
Proof.
  apply (main_request_schedule false 2 [4] demo_fs lowest failing_net 0 2
           "192.168.1.42" "ab8d8fbd8d8d8bdbd88d8bd80898").
  reflexivity.
Defined.





(** With no light the independent sending loop only sleeps. *)
Lemma loop_no_lights (e : Entropy) (net : Network) (n : nat) (st : MainState) :
  loop n true false [] e net st = inr (emit (replicate n Sleep) st).
Proof.
  revert st. induction n as [|n IH]; intros st.
  - cbn [loop replicate]. f_equal. destruct st. unfold emit. cbn. by rewrite app_nil_r.
  - cbn [loop loop_body for_lights and_then]. rewrite IH. f_equal.
    unfold emit. cbn. by rewrite <- app_assoc.
Qed.

(** X11. With an empty [LIGHTS], once the credentials are read: in sync
    mode and in debug mode the first iteration raises [IndexError] (at
    [LIGHTS[0]]); in independent sending mode the loop runs, draws no number,
    makes no request and only sleeps. *)
Theorem main_without_lights (send_to_hue in_sync : bool) (fs : FileSystem)
    (e : Entropy) (net : Network) (k n : nat) (ip user : string) :
  GetBridgeIpAndUsername fs "./bridge_ip_and_username.txt" = inr (ip, user) ->
  (send_to_hue = false \/ in_sync = true ->
     main_with send_to_hue in_sync [] fs e net k (S n) = inl IndexError) /\
  exists st,
    main_with true false [] fs e net k n = inr st /\
    trace st = replicate n Sleep /\ requests st = O /\ draws st = k /\
    flames st = ∅.
Proof.
  intros Hcred. unfold main_with, startup. rewrite Hcred. split.
  - intros Hmode. destruct send_to_hue, in_sync; cbn in *; try reflexivity.
    by destruct Hmode.
  - cbn [and_then for_lights]. rewrite loop_no_lights.
    eexists. split; [reflexivity|]. by cbn.
Qed.

Lemma main_without_lights_witness :
  (true = false \/ true = true ->
     main_with true true [] demo_fs lowest demo_net 0 (S 2) = inl IndexError) /\
  exists st,
    main_with true false [] demo_fs lowest demo_net 0 2 = inr st /\
    trace st = replicate 2 Sleep /\ requests st = O /\ draws st = O /\
    flames st = ∅.
Proof.
  apply (main_without_lights true true demo_fs lowest demo_net 0 2
           "192.168.1.42" "ab8d8fbd8d8d8bdbd88d8bd80898").
  reflexivity.
Defined.

(** ** The answers of the bridge do not steer the program *)










(** ** Independent mode *)

Lemma brightness_commands_app (evs1 evs2 : list Event) :
  brightness_commands (evs1 ++ evs2)
    = brightness_commands evs1 ++ brightness_commands evs2.
Proof. apply omap_app. Qed.

(** The pass over the lights in independent mode, when no light is listed
    twice: every light has its own flame called once and is sent the value
    that call returned. *)
Lemma for_lights_independent (e : Entropy) (net : Network) (ls : list Z)
    (st : MainState) :
  NoDup ls -> (forall i, i ∈ ls -> is_Some (flames st !! i)) ->
  exists st' new,
    for_lights (send_brightness e net false) ls st = inr st' /\
    trace st' = trace st ++ new /\
    brightness_commands new
      = (fun i => (i, from_option flameprime 0 (flames st' !! i))) <$> ls /\
    (draws st <= draws st')%nat /\
    (forall j, j ∉ ls -> flames st' !! j = flames st !! j) /\
    (forall i, i ∈ ls -> exists self k',
        flames st !! i = Some self /\ (draws st <= k' < draws st')%nat /\
        flames st' !! i = Some (flame_after e k' self)).
Proof.
  revert st. induction ls as [|i ls IH]; intros st Hnodup Hkeys; cbn [for_lights].
  - exists st, []. rewrite app_nil_r. repeat split; try done.
    intros i Hi. by apply elem_of_nil in Hi.
  - apply NoDup_cons in Hnodup as [Hi Hnodup].
    destruct (Hkeys i) as [self Hself]; [left|].
    unfold send_brightness at 1. cbn [and_then].
    rewrite (next_brightness_some e i st self Hself). cbn [and_then brightness].
    set (st1 := {| bridge_ip := bridge_ip st; username := username st;
                   flames := <[i := flame_after e (draws st) self]> (flames st);
                   brightness := Some (brightness_of e (draws st) self);
                   draws := draws_after e (draws st) self;
                   requests := requests st; trace := trace st |}).
    set (st2 := put net i (BodyBri (brightness_of e (draws st) self) TRANSITION_MS) st1).
    assert (Hfl2 : flames st2 = <[i := flame_after e (draws st) self]> (flames st))
      by reflexivity.
    assert (Hdr2 : draws st2 = draws_after e (draws st) self) by reflexivity.
    pose proof (draws_after_bounds e (draws st) self) as Hbounds.
    destruct (IH st2 Hnodup) as (st' & new & Hfor & Htr & Hcmd & Hdr & Hframe & Hown).
    { intros j Hj. rewrite Hfl2, lookup_insert_ne by (by intros ->).
      apply Hkeys. by right. }
    assert (Hi' : flames st' !! i = Some (flame_after e (draws st) self))
      by (rewrite (Hframe i Hi), Hfl2; apply lookup_insert_eq).
    eexists st', _. split; [exact Hfor|]. split; [|split; [|split; [|split]]].
    + rewrite Htr. subst st2. cbn [put trace]. subst st1. cbn [trace].
      rewrite <- app_assoc. reflexivity.
    + rewrite brightness_commands_app, Hcmd. cbn [fmap list_fmap].
      rewrite Hi'. cbn [from_option]. rewrite <- brightness_is_flameprime.
      subst st1. cbn [requests]. by destruct (status_code _ =? 200).
    + rewrite Hdr2 in Hdr. lia.
    + intros j Hj. apply not_elem_of_cons in Hj as [Hne Hj].
      rewrite (Hframe j Hj), Hfl2. by apply lookup_insert_ne.
    + intros j Hj. apply elem_of_cons in Hj as [->|Hj].
      * exists self, (draws st). rewrite Hdr2 in Hdr. repeat split; try done; lia.
      * destruct (Hown j Hj) as (self' & k' & Hself' & Hk' & Hafter).
        exists self', k'. rewrite Hfl2, lookup_insert_ne in Hself' by (by intros ->).
        rewrite Hdr2 in Hk'. repeat split; try done; lia.
Qed.

(** X13. In independent mode, with no light listed twice, every iteration
    of the loop calls [GetNextFlameBrightness] once on the flame of every
    light and sends each light the value its own flame returned, which is
    the [flameprime] that flame holds after the iteration. *)
Theorem independent_mode_own_brightness (i0 : Z) (rest : list Z)
    (fs : FileSystem) (e : Entropy) (net : Network) (k n : nat) (st0 : MainState) :
  startup true (i0 :: rest) fs net k = inr st0 -> NoDup (i0 :: rest) ->
  exists st st' new,
    loop n true false (i0 :: rest) e net st0 = inr st /\
    loop_body true false (i0 :: rest) e net st = inr st' /\
    trace st' = trace st ++ new /\
    brightness_commands new
      = (fun i => (i, from_option flameprime 0 (flames st' !! i))) <$> (i0 :: rest) /\
    forall i, i ∈ i0 :: rest -> exists self k',
      flames st !! i = Some self /\ (draws st <= k' < draws st')%nat /\
      flames st' !! i = Some (flame_after e k' self).
Proof.
  intros Hstart Hnodup.
  pose proof (startup_result true (i0 :: rest) fs net k) as Hres.
  destruct (GetBridgeIpAndUsername fs _) as [exn|[ip user]] eqn:Hcred;
    [by rewrite Hstart in Hres|].
  destruct (startup_inv true (i0 :: rest) fs net k ip user
              (fun _ => True) (fun _ => True) Hcred I) as (st0' & Hstart' & Hinv0).
  rewrite Hstart in Hstart'. injection Hstart' as <-.
  destruct (loop_inv_run e net (i0 :: rest) ip user (fun _ => True) (fun _ => True))
    with (send_to_hue := true) (in_sync := false) (i0 := i0)
         (rest := rest) (n := n) (st := st0) as (st & Hloop & Hinv); try done.
  destruct (for_lights_independent e net (i0 :: rest) st Hnodup
              (inv_keys _ _ _ _ _ _ Hinv))
    as (st2 & new & Hfor & Htr & Hcmd & _ & _ & Hown).
  exists st, (emit [Sleep] st2), (new ++ [Sleep]).
  split; [exact Hloop|]. split; [|split; [|split]].
  - unfold loop_body. cbn [and_then]. by rewrite Hfor.
  - cbn [emit trace]. by rewrite Htr, <- app_assoc.
  - rewrite brightness_commands_app, Hcmd. cbn [emit flames]. apply app_nil_r.
  - exact Hown.
Qed.

Lemma independent_mode_own_brightness_witness :
  exists st st' new,
    loop 2 true false (2 :: [4]) lowest demo_net demo_state = inr st /\
    loop_body true false (2 :: [4]) lowest demo_net st = inr st' /\
    trace st' = trace st ++ new /\
    brightness_commands new
      = (fun i => (i, from_option flameprime 0 (flames st' !! i))) <$> (2 :: [4]) /\
    forall i, i ∈ 2 :: [4] -> exists self k',
      flames st !! i = Some self /\ (draws st <= k' < draws st')%nat /\
      flames st' !! i = Some (flame_after lowest k' self).
Proof.
  apply (independent_mode_own_brightness 2 [4] demo_fs lowest demo_net 0 2
           demo_state).
  - reflexivity.
  - apply NoDup_cons. split; [|apply NoDup_singleton].
    intros Hin. apply list_elem_of_singleton in Hin. discriminate.
Defined.

(** * Further properties of the credential loader *)

Lemma rstrip_cons (c : ascii) (s : string) :
  is_space c = false -> rstrip (String c s) = String c (rstrip s).
Proof. intros Hc. cbn [rstrip]. rewrite Hc. by destruct (rstrip s). Qed.

Lemma lstrip_head (s : string) :
  lstrip s = EmptyString \/
  exists c s', lstrip s = String c s' /\ is_space c = false.
Proof.
  induction s as [|c s IH]; [by left|]. cbn [lstrip].
  destruct (is_space c) eqn:Hc; [exact IH|]. right. by exists c, s.
Qed.

Lemma rstrip_idempotent (s : string) : rstrip (rstrip s) = rstrip s.
Proof.
  induction s as [|c s IH]; [reflexivity|]. cbn [rstrip].
  destruct (rstrip s) as [|c' r] eqn:Hr.
  - destruct (is_space c) eqn:Hc; [reflexivity|]. cbn [rstrip]. by rewrite Hc.
  - change (rstrip (String c (String c' r)))
      with (match rstrip (String c' r) with
            | EmptyString => if is_space c then EmptyString else String c EmptyString
            | String c2 r2 => String c (String c2 r2)
            end).
    by rewrite IH.
Qed.

Lemma strip_idempotent (s : string) : strip (strip s) = strip s.
Proof.
  unfold strip. destruct (lstrip_head s) as [->|(c & s' & -> & Hc)]; [reflexivity|].
  rewrite (rstrip_cons c s' Hc). cbn [lstrip]. rewrite Hc.
  rewrite <- (rstrip_cons c s' Hc). apply rstrip_idempotent.
Qed.

(** Stripping adds no character. *)
Lemma occurs_lstrip (c : ascii) (s : string) :
  occurs c (lstrip s) = true -> occurs c s = true.
Proof.
  induction s as [|c' s IH]; [done|]. cbn [lstrip occurs].
  destruct (is_space c'); [|done]. intros H. rewrite (IH H). apply orb_true_r.
Qed.

Lemma occurs_rstrip (c : ascii) (s : string) :
  occurs c (rstrip s) = true -> occurs c s = true.
Proof.
  induction s as [|c' s IH]; [done|]. cbn [rstrip occurs].
  destruct (rstrip s) as [|c'' r] eqn:Hr.
  - destruct (is_space c'); [done|]. cbn [occurs]. rewrite orb_false_r.
    intros ->. reflexivity.
  - intros H. cbn [occurs] in H. apply orb_true_iff in H as [->|H]; [reflexivity|].
    rewrite (IH H). apply orb_true_r.
Qed.

Lemma append_nil_l (s : string) : String.append EmptyString s = s.
Proof. reflexivity. Qed.

Lemma append_cons (c : ascii) (s t : string) :
  String.append (String c s) t = String c (String.append s t).
Proof. reflexivity. Qed.

(** Trailing white space does not matter to [rstrip]. *)
Lemma rstrip_app_space (s : string) (c : ascii) :
  is_space c = true -> rstrip (String.append s (String c EmptyString)) = rstrip s.
Proof.
  intros Hc. induction s as [|c' s IH].
  - rewrite append_nil_l. cbn [rstrip]. by rewrite Hc.
  - rewrite append_cons. cbn [rstrip]. by rewrite IH.
Qed.

Lemma lstrip_app (s t : string) :
  lstrip (String.append s t)
    = match lstrip s with
      | EmptyString => lstrip t
      | String c r => String.append (String c r) t
      end.
Proof.
  induction s as [|c s IH]; [reflexivity|]. rewrite append_cons. cbn [lstrip].
  by destruct (is_space c).
Qed.

(** The line feed that ends a line is stripped with the rest. *)
Lemma strip_app_newline (s : string) :
  strip (String.append s (String newline EmptyString)) = strip s.
Proof.
  unfold strip. rewrite lstrip_app.
  destruct (lstrip s) as [|c r]; [reflexivity|].
  by apply rstrip_app_space.
Qed.

(** The shape of a line of [readlines]: a body without line feed, with or
    without a line feed after it. *)
Lemma readlines_shape (content line : string) :
  line ∈ readlines content ->
  exists body, occurs newline body = false /\
    (line = body \/ line = String.append body (String newline EmptyString)).
Proof.
  revert line. induction content as [|c rest IH]; intros line; cbn [readlines].
  - by intros ?%elem_of_nil.
  - destruct (Ascii.eqb_spec c newline) as [->|Hne].
    + intros [->|Hin]%elem_of_cons; [|by apply IH].
      exists EmptyString. split; [reflexivity|]. by right.
    + assert (Hc : Ascii.eqb newline c = false) by (apply Ascii.eqb_neq; congruence).
      destruct (readlines rest) as [|l ls] eqn:Hrest.
      * intros ->%list_elem_of_singleton. exists (String c EmptyString).
        split; [|by left]. cbn [occurs]. by rewrite Hc.
      * intros [->|Hin]%elem_of_cons; [|apply IH; by right].
        destruct (IH l) as (body & Hbody & Hl); [left|].
        exists (String c body). split.
        -- cbn [occurs]. by rewrite Hc, Hbody.
        -- destruct Hl as [->| ->]; [by left | by right].
Qed.

Lemma strip_line_no_newline (content line : string) :
  line ∈ readlines content -> occurs newline (strip line) = false.
Proof.
  intros (body & Hbody & Hline)%readlines_shape.
  assert (Hstrip : strip line = strip body)
    by (destruct Hline as [->| ->]; [reflexivity | apply strip_app_newline]).
  rewrite Hstrip. apply not_true_is_false. unfold strip.
  intros H%occurs_rstrip%occurs_lstrip. congruence.
Qed.

(** X14. The address and the user name returned by
    [GetBridgeIpAndUsername] are clean: stripping them again changes
    nothing (no white space at either end), and neither contains a line
    feed. *)
Theorem credentials_are_clean (fs : FileSystem) (filename ip user : string) :
  GetBridgeIpAndUsername fs filename = inr (ip, user) ->
  strip ip = ip /\ strip user = user /\
  occurs newline ip = false /\ occurs newline user = false.
Proof.
  unfold GetBridgeIpAndUsername.
  destruct (fs filename) as [content|]; [|discriminate].
  destruct (negb _); [discriminate|].
  destruct ((strip <$> readlines content) !! 0%nat) as [a|] eqn:Ha; [|discriminate].
  destruct ((strip <$> readlines content) !! 1%nat) as [b|] eqn:Hb; [|discriminate].
  intros [= <- <-].
  apply list_lookup_fmap_Some in Ha as (l0 & -> & Hl0).
  apply list_lookup_fmap_Some in Hb as (l1 & -> & Hl1).
  apply list_elem_of_lookup_2 in Hl0, Hl1.
  rewrite !strip_idempotent.
  repeat split; try reflexivity; by eapply strip_line_no_newline.
Qed.

Lemma credentials_are_clean_witness :
  strip "192.168.1.42" = "192.168.1.42"%string /\
  strip "user" = "user"%string /\
  occurs newline "192.168.1.42" = false /\ occurs newline "user" = false.
Proof.
  apply (credentials_are_clean padded_fs "cred.txt" "192.168.1.42" "user").
  reflexivity.
Defined.

(** How [readlines] cuts a content made of line bodies. *)
Lemma readlines_line (body rest : string) :
  occurs newline body = false ->
  readlines (String.append body (String newline rest))
    = String.append body (String newline EmptyString) :: readlines rest.
Proof.
  induction body as [|c body IH]; intros Hbody.
  - rewrite !append_nil_l. cbn [readlines]. by rewrite Ascii.eqb_refl.
  - cbn [occurs] in Hbody. apply orb_false_iff in Hbody as [Hc Hbody].
    rewrite !append_cons. cbn [readlines].
    rewrite Ascii.eqb_sym, Hc, (IH Hbody). reflexivity.
Qed.

Lemma readlines_last (body : string) :
  occurs newline body = false -> body <> EmptyString ->
  readlines body = [body].
Proof.
  induction body as [|c body IH]; intros Hbody Hne; [done|]. cbn [readlines].
  cbn [occurs] in Hbody. apply orb_false_iff in Hbody as [Hc Hbody].
  rewrite Ascii.eqb_sym, Hc.
  destruct body as [|c' body']; [reflexivity|].
  by rewrite (IH Hbody).
Qed.

(** X15. The line feed after the second line is optional: for two lines
    free of line feeds, the second not empty, the file holding them
    separated by a line feed and the same file with a final line feed are
    both accepted, and both give the two lines stripped. *)
Theorem final_line_feed_is_optional (fs1 fs2 : FileSystem) (filename l0 l1 : string) :
  occurs newline l0 = false -> occurs newline l1 = false -> l1 <> EmptyString ->
  fs1 filename = Some (String.append l0 (String newline l1)) ->
  fs2 filename
    = Some (String.append l0 (String newline (String.append l1 (String newline EmptyString)))) ->
  GetBridgeIpAndUsername fs1 filename = inr (strip l0, strip l1) /\
  GetBridgeIpAndUsername fs2 filename = inr (strip l0, strip l1).
Proof.
  intros H0 H1 Hne Hfs1 Hfs2. unfold GetBridgeIpAndUsername. rewrite Hfs1, Hfs2.
  rewrite !(readlines_line l0) by done.
  rewrite (readlines_last l1) by done.
  rewrite (readlines_line l1) by done.
  cbn. by rewrite !strip_app_newline.
Qed.

Lemma final_line_feed_is_optional_witness :
  GetBridgeIpAndUsername
    (fun _ => Some (String.append " 192.168.1.42 " (String newline "user")))
    "cred.txt" = inr (strip " 192.168.1.42 ", strip "user") /\
  GetBridgeIpAndUsername padded_fs "cred.txt"
    = inr (strip " 192.168.1.42 ", strip "user").
Proof.
  apply (final_line_feed_is_optional
           (fun _ => Some (String.append " 192.168.1.42 " (String newline "user")))
           padded_fs "cred.txt" " 192.168.1.42 " "user").
  - reflexivity.
  - reflexivity.
  - discriminate.
  - reflexivity.
  - reflexivity.
Defined.

(** ** Failure reports *)

Lemma printed_app (evs1 evs2 : list Event) :
  printed (evs1 ++ evs2) = printed evs1 ++ printed evs2.
Proof. apply List.filter_app. Qed.

Lemma reports_succ (net : Network) (n : nat) :
  mjoin ((fun j => report (net j)) <$> seq 0 (S n))
    = mjoin ((fun j => report (net j)) <$> seq 0 n) ++ report (net n).
Proof.
  rewrite seq_S, fmap_app, join_app. cbn. by rewrite app_nil_r.
Qed.

Section Reports.

Variables (e : Entropy) (net : Network).

Local Abbreviation reported := (reported_by net).

Lemma put_reported (i : Z) (body : Body) (st : MainState) :
  reported st -> reported (put net i body st).
Proof.
  unfold reported_by. intros Hst. cbn [put trace requests].
  rewrite printed_app, reports_succ, Hst. f_equal.
  unfold report. by destruct (status_code (net (requests st)) =? 200).
Qed.

Lemma emit_reported (evs : list Event) (st : MainState) :
  printed evs = [] -> reported st -> reported (emit evs st).
Proof.
  unfold reported_by. intros Hevs Hst. cbn [emit trace requests].
  by rewrite printed_app, Hevs, app_nil_r.
Qed.

Lemma next_brightness_reported (i : Z) (st st' : MainState) :
  next_brightness e i st = inr st' -> reported st -> reported st'.
Proof.
  intros Hnext. destruct (next_brightness_frame e i st st' Hnext) as (Htr & Hreq & _).
  unfold reported_by. by rewrite Htr, Hreq.
Qed.

Lemma send_brightness_reported (in_sync : bool) (i : Z) (st st' : MainState) :
  send_brightness e net in_sync i st = inr st' -> reported st -> reported st'.
Proof.
  unfold send_brightness.
  assert (Hput : forall st0, reported st0 ->
    match brightness st0 with
    | None => inl NameError
    | Some b => inr (put net i (BodyBri b TRANSITION_MS) st0)
    end = inr st' -> reported st').
  { intros st0 Hst0. destruct (brightness st0); [|discriminate].
    intros [= <-]. by apply put_reported. }
  destruct in_sync; cbn [and_then].
  - intros Hsend Hst. by apply (Hput st).
  - destruct (next_brightness e i st) as [exn|st0] eqn:Hnext; [discriminate|].
    cbn [and_then]. intros Hsend Hst. apply (Hput st0); [|done].
    by apply (next_brightness_reported i st).
Qed.

Lemma for_lights_reported (body : Z -> MainState -> Result MainState)
    (ls : list Z) (st st' : MainState) :
  (forall i s s', body i s = inr s' -> reported s -> reported s') ->
  for_lights body ls st = inr st' -> reported st -> reported st'.
Proof.
  intros Hbody. revert st. induction ls as [|i ls IH]; intros st; cbn [for_lights].
  - by intros [= <-].
  - destruct (body i st) as [exn|st1] eqn:Hone; [discriminate|]. cbn [and_then].
    intros Hrest Hst. apply (IH st1 Hrest). by apply (Hbody i st).
Qed.

Lemma loop_body_reported (send_to_hue in_sync : bool) (lights : list Z)
    (st st' : MainState) :
  loop_body send_to_hue in_sync lights e net st = inr st' ->
  reported st -> reported st'.
Proof.
  unfold loop_body.
  assert (Hfor : forall st1, reported st1 ->
    (do! st2 := for_lights (send_brightness e net in_sync) lights st1 in
     inr (emit [Sleep] st2)) = inr st' -> reported st').
  { intros st1 Hst1.
    destruct (for_lights _ lights st1) as [exn|st2] eqn:Hfor; [discriminate|].
    cbn [and_then]. intros [= <-]. apply emit_reported; [reflexivity|].
    apply (for_lights_reported _ lights st1 st2
             (send_brightness_reported in_sync) Hfor Hst1). }
  destruct send_to_hue.
  - destruct in_sync; cbn [and_then].
    + destruct (first_light lights) as [exn|i0]; [discriminate|]. cbn [and_then].
      destruct (next_brightness e i0 st) as [exn|st1] eqn:Hnext; [discriminate|].
      cbn [and_then]. intros Hrest Hst. apply (Hfor st1); [|done].
      by apply (next_brightness_reported i0 st).
    + intros Hrest Hst. by apply (Hfor st).
  - destruct (first_light lights) as [exn|i0]; [discriminate|]. cbn [and_then].
    destruct (next_brightness e i0 st) as [exn|st1] eqn:Hnext; [discriminate|].
    cbn [and_then]. destruct (brightness st1); [|discriminate]. cbn [and_then].
    intros [= <-] Hst. repeat (apply emit_reported; [reflexivity|]).
    by apply (next_brightness_reported i0 st).
Qed.

Lemma loop_reported (send_to_hue in_sync : bool) (lights : list Z) (n : nat)
    (st st' : MainState) :
  loop n send_to_hue in_sync lights e net st = inr st' ->
  reported st -> reported st'.
Proof.
  revert st. induction n as [|n IH]; intros st; cbn [loop].
  - by intros [= <-].
  - destruct (loop_body send_to_hue in_sync lights e net st) as [exn|st1] eqn:Hbody;
      [discriminate|].
    cbn [and_then]. intros Hrest Hst. apply (IH st1 Hrest).
    by apply (loop_body_reported send_to_hue in_sync lights st).
Qed.

Lemma startup_reported (send_to_hue : bool) (lights : list Z) (fs : FileSystem)
    (k : nat) (st0 : MainState) :
  startup send_to_hue lights fs net k = inr st0 -> reported st0.
Proof.
  unfold startup.
  destruct (GetBridgeIpAndUsername fs _) as [exn|cred]; [discriminate|].
  cbn [and_then].
  match goal with |- context [if send_to_hue then for_lights ?f lights ?s else _] =>
    assert (Hpower : forall s', (if send_to_hue then for_lights f lights s else inr s)
                                = inr s' -> reported s')
  end.
  { intros s'. destruct send_to_hue.
    - intros Hfor. apply (for_lights_reported _ lights _ s' ) in Hfor; [done| |done].
      intros i s1 s2 [= <-]. apply put_reported.
    - by intros [= <-]. }
  destruct (if send_to_hue then _ else _) as [exn|s1]; [discriminate|].
  cbn [and_then]. intros [= <-]. specialize (Hpower s1 eq_refl).
  exact Hpower.
Qed.

End Reports.

(** X16. [main] reports exactly the failed requests: what it has printed
    after any number of iterations is, for each request made, in order, the
    status code and the text of the response when the status is not 200,
    and nothing when it is; in particular nothing at all when the bridge
    accepts every request. *)
Theorem main_reports_failures (send_to_hue in_sync : bool) (i0 : Z) (rest : list Z)
    (fs : FileSystem) (e : Entropy) (net : Network) (k n : nat) (ip user : string) :
  GetBridgeIpAndUsername fs "./bridge_ip_and_username.txt" = inr (ip, user) ->
  exists st,
    main_with send_to_hue in_sync (i0 :: rest) fs e net k n = inr st /\
    printed (trace st)
      = mjoin ((fun j => report (net j)) <$> seq 0 (requests st)) /\
    ((forall j, status_code (net j) = 200) -> printed (trace st) = []).
Proof.
  intros Hcred.
  destruct (startup_inv send_to_hue (i0 :: rest) fs net k ip user
              (fun _ => True) (fun _ => True) Hcred I) as (st0 & Hstart & Hinv0).
  destruct (loop_inv_run e net (i0 :: rest) ip user (fun _ => True) (fun _ => True))
    with (send_to_hue := send_to_hue) (in_sync := in_sync) (i0 := i0)
         (rest := rest) (n := n) (st := st0) as (st & Hloop & _); try done.
  pose proof (loop_reported e net send_to_hue in_sync (i0 :: rest) n st0 st Hloop
                (startup_reported net send_to_hue (i0 :: rest) fs k st0 Hstart))
    as Hprinted.
  exists st. unfold main_with. rewrite Hstart. cbn [and_then].
  split; [done|]. split; [exact Hprinted|].
  intros Hok. rewrite Hprinted. clear Hprinted.
  induction (seq 0 (requests st)) as [|j js IH]; [reflexivity|].
  cbn. unfold report at 1. by rewrite Hok, Z.eqb_refl.
Qed.

Lemma main_reports_failures_witness :
  exists st,
    main_with true false (2 :: [4]) demo_fs lowest failing_net 0 1 = inr st /\
    printed (trace st)
      = mjoin ((fun j => report (failing_net j)) <$> seq 0 (requests st)) /\
    ((forall j, status_code (failing_net j) = 200) -> printed (trace st) = []).
Proof.
  apply (main_reports_failures true false 2 [4] demo_fs lowest failing_net 0 1
           "192.168.1.42" "ab8d8fbd8d8d8bdbd88d8bd80898").
  reflexivity.
Defined.

(** * The debug line *)

Lemma length_append (s t : string) :
  String.length (String.append s t) = (String.length s + String.length t)%nat.
Proof.
  induction s as [|c s IH]; [reflexivity|].
  rewrite append_cons. cbn [String.length]. by rewrite IH.
Qed.

Lemma length_times (c : ascii) (n : Z) : String.length (times c n) = Z.to_nat n.
Proof.
  unfold times. induction (Z.to_nat n) as [|m IH]; [reflexivity|].
  rewrite Nat.iter_succ. cbn [String.length]. by rewrite IH.
Qed.

(** X17. For a brightness of the simulation, between [MIN_BRIGHTNESS] and
    [MAX_BRIGHTNESS], the debug line is a bar of 23 to 51 dashes with the
    same number of blanks on either side, 50 or 51 characters in all,
    followed by a carriage return. *)
Theorem debug_line_width (b : Z) :
  MIN_BRIGHTNESS <= b <= MAX_BRIGHTNESS ->
  exists dashes pad : Z,
    debug_line b
      = (times " " pad +:+ times "-" dashes +:+ times " " pad
         +:+ String "013" EmptyString)%string /\
    23 <= dashes <= 51 /\ 0 <= pad /\ 50 <= pad + dashes + pad <= 51 /\
    (51 <= String.length (debug_line b) <= 52)%nat.
Proof.
  intros Hb. unfold_consts.
  exists (Z.quot (51 * b) 220), (Z.quot (51 - Z.quot (51 * b) 220) 2).
  split; [reflexivity|].
  assert (Hq : Z.quot (51 * b) 220 = 51 * b / 220)
    by (apply Z.quot_div_nonneg; lia).
  pose proof (Z.div_mod (51 * b) 220 ltac:(lia)) as Hdm.
  pose proof (Z.mod_pos_bound (51 * b) 220 ltac:(lia)) as Hmb.
  rewrite Hq. set (q := 51 * b / 220) in *.
  assert (Hq' : 23 <= q <= 51) by lia.
  assert (Hp : Z.quot (51 - q) 2 = (51 - q) / 2)
    by (apply Z.quot_div_nonneg; lia).
  pose proof (Z.div_mod (51 - q) 2 ltac:(lia)) as Hdm2.
  pose proof (Z.mod_pos_bound (51 - q) 2 ltac:(lia)) as Hmb2.
  rewrite Hp. set (p := (51 - q) / 2) in *.
  assert (Hp' : 0 <= p) by lia.
  split; [done|]. split; [done|]. split; [lia|].
  unfold debug_line, MAX_BRIGHTNESS. rewrite Hq. fold q. rewrite Hp. fold p.
  rewrite !length_append, !length_times. cbn [String.length]. lia.
Qed.

Lemma debug_line_width_witness :
  exists dashes pad : Z,
    debug_line 100
      = (times " " pad +:+ times "-" dashes +:+ times " " pad
         +:+ String "013" EmptyString)%string /\
    23 <= dashes <= 51 /\ 0 <= pad /\ 50 <= pad + dashes + pad <= 51 /\
    (51 <= String.length (debug_line 100) <= 52)%nat.
Proof.
  apply (debug_line_width 100). unfold MIN_BRIGHTNESS, MAX_BRIGHTNESS. lia.
Defined.
